(** * xpra: the RFB client handshake parser, the backend test and vfb_util

    A shallow embedding of [xpra/client/rfb_protocol.py] (class
    [RFBClientProtocol]), of the backend test of
    [tests/unittests/unit/net/crypto_test.py] and of the pure parts of
    [xpra/x11/vfb_util.py].

    Conventions
    - a Python [bytes] object is a [list byte];
    - a Python [int] is a [Z] (unbounded, as in Python);
    - slices follow Python's clamping rules ([slice]);
    - [struct.calcsize], [struct.unpack] and [struct.pack] are modelled
      for the format characters the parser uses ([B], [H], [I], [i]) in
      native and network ([!]) mode; a wrong buffer size or an out of
      range value raises [StructError], as [struct.error] does;
    - the methods of the parser run in a state-and-exception monad over
      the fields of [self] that the parser touches. *)

From Stdlib Require Import ZArith List Lia Bool.
From Stdlib Require String.
From Stdlib.Strings Require Import Byte.
Import ListNotations.

Local Open Scope Z_scope.

(** ** Bytes and Python slices *)

Module Py.

Definition bytes := list byte.

Definition byte_val (b : byte) : Z := Z.of_N (Byte.to_N b).

Definition byte_of_Z (v : Z) : byte :=
  match Byte.of_N (Z.to_N (v mod 256)) with
  | Some b => b
  | None => x00
  end.

Definition len {A : Type} (l : list A) : Z := Z.of_nat (length l).

(** Python's normalisation of one slice bound against a length. *)
Definition clamp_index (n i : Z) : Z :=
  if i <? 0 then Z.max (n + i) 0 else Z.min i n.

(** [slice l start stop] is [l[start:stop]]; [None] is an omitted bound. *)
Definition slice {A : Type} (l : list A) (start stop : option Z) : list A :=
  let n := len l in
  let a := match start with None => 0 | Some i => clamp_index n i end in
  let b := match stop with None => n | Some j => clamp_index n j end in
  firstn (Z.to_nat (b - a)) (skipn (Z.to_nat a) l).

(** Exceptions the modelled code can raise. *)
Inductive exn : Type :=
| StructError
| IndexError
| ValueError
| AssertionError.

(** The value a method returns: an int, or [None] for a bare [return]. *)
Inductive value : Type :=
| PyInt (z : Z)
| PyNone.

End Py.

(** ** The [struct] module *)

Module Struct.

Import Py.

Inductive byte_order : Type := Native | Network.

(** Format characters: [B] (unsigned char), [H] (unsigned short),
    [I] (unsigned int), [i] (int). *)
Inductive code : Type := cB | cH | cI | ci.

Record format : Type := mkFormat { order : byte_order; codes : list code }.

Definition code_size (c : code) : nat :=
  match c with
  | cB => 1
  | cH => 2
  | cI | ci => 4
  end.

Definition code_signed (c : code) : bool :=
  match c with
  | ci => true
  | _ => false
  end.

(** Native mode aligns every field on its own size; network mode packs
    the fields without padding. *)
Definition align (o : byte_order) (off sz : nat) : nat :=
  match o with
  | Network => off
  | Native => (off + (sz - off mod sz) mod sz)%nat
  end.

Fixpoint end_offset (o : byte_order) (off : nat) (cs : list code) : nat :=
  match cs with
  | [] => off
  | c :: cs' => end_offset o (align o off (code_size c) + code_size c) cs'
  end.

Definition calcsize (f : format) : Z :=
  Z.of_nat (end_offset (order f) 0 (codes f)).

(** Big-endian value of a run of bytes. *)
Definition be_value (bs : bytes) : Z :=
  fold_left (fun acc b => acc * 256 + byte_val b) bs 0.

(** Native order is little-endian on the platforms xpra runs on. *)
Definition field_bytes (o : byte_order) (bs : bytes) : bytes :=
  match o with
  | Network => bs
  | Native => rev bs
  end.

Definition decode (o : byte_order) (c : code) (bs : bytes) : Z :=
  let u := be_value (field_bytes o bs) in
  let w := 2 ^ (8 * Z.of_nat (code_size c)) in
  if code_signed c && (w / 2 <=? u) then u - w else u.

Fixpoint unpack_fields (o : byte_order) (off : nat) (cs : list code)
    (buf : bytes) : list Z :=
  match cs with
  | [] => []
  | c :: cs' =>
      let a := align o off (code_size c) in
      decode o c (firstn (code_size c) (skipn a buf))
        :: unpack_fields o (a + code_size c) cs' buf
  end.

(** [struct.unpack(fmt, buf)]: the buffer must have exactly the size of
    the format. *)
Definition unpack (f : format) (buf : bytes) : exn + list Z :=
  if len buf =? calcsize f
  then inr (unpack_fields (order f) 0 (codes f) buf)
  else inl StructError.

Fixpoint be_bytes (n : nat) (v : Z) : bytes :=
  match n with
  | O => []
  | S k => be_bytes k (v / 256) ++ [byte_of_Z v]
  end.

Definition in_range (c : code) (v : Z) : bool :=
  let w := 2 ^ (8 * Z.of_nat (code_size c)) in
  if code_signed c then (- (w / 2) <=? v) && (v <? w / 2)
  else (0 <=? v) && (v <? w).

Definition encode (o : byte_order) (c : code) (v : Z) : bytes :=
  field_bytes o (be_bytes (code_size c) v).

Fixpoint pack_fields (o : byte_order) (off : nat) (cs : list code)
    (vs : list Z) : exn + bytes :=
  match cs, vs with
  | [], [] => inr []
  | c :: cs', v :: vs' =>
      let a := align o off (code_size c) in
      if in_range c v then
        match pack_fields o (a + code_size c) cs' vs' with
        | inr rest => inr (repeat x00 (a - off) ++ encode o c v ++ rest)
        | inl e => inl e
        end
      else inl StructError
  | _, _ => inl StructError
  end.

(** [struct.pack(fmt, v1, v2, ...)]. *)
Definition pack (f : format) (vs : list Z) : exn + bytes :=
  pack_fields (order f) 0 (codes f) vs.

(** [fmt * n] for a native format of [B]s, as in [b"B"*n]. *)
Definition native (cs : list code) : format := mkFormat Native cs.
Definition network (cs : list code) : format := mkFormat Network cs.

End Struct.

Import Py Struct.

(** ** The state of a protocol object and the monad of its methods *)

(** Which method [self._packet_parser] is bound to.  The names are the
    specification's; [handler] below maps each to its method. *)
Inductive ParseState : Type :=
| AwaitingSecurityHandshake   (* self._parse_security_handshake *)
| AwaitingSecurityResult      (* self._parse_security_result *)
| AwaitingClientInit          (* self._parse_client_init *)
| SteadyStateUpdates.         (* self._parse_rfb_packet *)

(** An advertised security type after the conversion loop: a member of
    the [RFBAuth] enumeration, or the integer left as it was when
    [RFBAuth(v)] raised [ValueError].  Both carry the integer value, as
    an [IntEnum] member does. *)
Inductive security_type : Type :=
| Member (v : Z)
| Opaque (v : Z).

Definition int_of (t : security_type) : Z :=
  match t with
  | Member v => v
  | Opaque v => v
  end.

(** The message of an abort call, with the values formatted into it. *)
Inductive reason : Type :=
| Cannot_parse_security_handshake (packet : bytes)
| Security_type_not_supported (st0 : security_type)
| Authentication_denied (r : Z)
| Unknown_packet
| Invalid_encoding (encoding : Z).

(** Modelled from the spec: [send], [_internal_error] and [invalid] are
    methods of the base class [RFBProtocol] (xpra.net.rfb.rfb_protocol),
    which is not among the sources.  Section 6 describes them as sinks:
    the transport accepts bytes to send, the abort collaborator is
    invoked with the offending bytes and a reason.  A call is recorded,
    in order, in the field of the session it belongs to. *)
Inductive abort_call : Type :=
| InternalError (packet : bytes) (why : reason)
| Invalid (why : reason) (packet : bytes).

(** The calls to the logger, one constructor per call site. *)
Inductive log_record : Type :=
| Log_parse_security_handshake (packet : bytes)
| Log_security_types (packet : bytes) (st : list security_type)
| Log_parse_security_result_success (packet : bytes)
| Log_parse_client_init (packet : bytes)
| Log_server_session (session_name : String.string)
| Log_parse_rfb_packet (packet : bytes)
| Log_screen_update (x y w h : Z).

Record session : Type := mkSession {
  packet_parser : ParseState;
  sent : list bytes;
  aborts : list abort_call;
  logged : list log_record
}.

Module Method.

(** A method body: it may raise, and it leaves a session behind either
    way (what was mutated before a [raise] stays mutated). *)
Definition M (A : Type) : Type := session -> (exn + A) * session.

Definition ret {A : Type} (a : A) : M A := fun s => (inr a, s).

Definition bind {A B : Type} (c : M A) (k : A -> M B) : M B :=
  fun s =>
    match c s with
    | (inr a, s') => k a s'
    | (inl e, s') => (inl e, s')
    end.

Definition lift {A : Type} (r : exn + A) : M A := fun s => (r, s).

Definition set_packet_parser (p : ParseState) : M unit :=
  fun s => (inr tt, mkSession p (sent s) (aborts s) (logged s)).

Definition send (packet : bytes) : M unit :=
  fun s => (inr tt,
            mkSession (packet_parser s) (sent s ++ [packet]) (aborts s) (logged s)).

Definition abort (c : abort_call) : M unit :=
  fun s => (inr tt,
            mkSession (packet_parser s) (sent s) (aborts s ++ [c]) (logged s)).

Definition log (r : log_record) : M unit :=
  fun s => (inr tt,
            mkSession (packet_parser s) (sent s) (aborts s) (logged s ++ [r])).

End Method.

Import Method.

Declare Scope method_scope.
Delimit Scope method_scope with method.
Notation "x <- c ;; k" := (bind c (fun x => k))
  (at level 61, c at next level, right associativity) : method_scope.
Notation "c ;; k" := (bind c (fun _ => k))
  (at level 61, right associativity) : method_scope.
Local Open Scope method_scope.

(** [t[i]] for a non-negative [i], and [t[-1]]. *)
Definition item (t : list Z) (i : nat) : exn + Z :=
  match nth_error t i with
  | Some v => inr v
  | None => inl IndexError
  end.

Definition last_item (t : list Z) : exn + Z :=
  match rev t with
  | v :: _ => inr v
  | [] => inl IndexError
  end.

Fixpoint bytes_eqb (a b : bytes) : bool :=
  match a, b with
  | [], [] => true
  | x :: a', y :: b' => Byte.eqb x y && bytes_eqb a' b'
  | _, _ => false
  end.

(** ** [RFBClientProtocol] *)

Section RFBClientProtocol.

(** The names imported from [xpra.net.rfb.rfb_const] and [xpra.os_util]
    are not among the sources; the parser is modelled for any values of
    them. *)
Variable RFBAuth_values : list Z.          (* the values of the members of RFBAuth *)
Variable RFBAuth_NONE : Z.                 (* RFBAuth.NONE *)
Variable RFBClientMessage_SetEncodings : Z.
Variable RFBEncoding_RAW : Z.
Variable CLIENT_INIT : format.
Variable bytestostr : bytes -> String.string.

(** [RFBAuth(v)]: the member with value [v], or [ValueError]. *)
Definition RFBAuth (v : Z) : exn + security_type :=
  if existsb (Z.eqb v) RFBAuth_values then inr (Member v) else inl ValueError.

(** The body of the conversion loop: [try: v = RFBAuth(v)],
    [except ValueError: pass], [st.append(v)]. *)
Definition convert_append (st : list security_type) (v : Z)
    : list security_type :=
  match RFBAuth v with
  | inr m => st ++ [m]
  | inl _ => st ++ [Opaque v]
  end.

(** One turn of the conversion loop on one code, and the list [st] the
    loop builds from the bytes after the count. *)
Definition convert (v : Z) : security_type :=
  match RFBAuth v with
  | inr m => m
  | inl _ => Opaque v
  end.

Definition advertised (types : bytes) : list security_type :=
  map convert (map byte_val types).

Definition _internal_error (packet : bytes) (why : reason) : M unit :=
  abort (InternalError packet why).

Definition invalid (why : reason) (packet : bytes) : M unit :=
  abort (Invalid why packet).

Definition _parse_security_handshake (packet : bytes) : M value :=
  log (Log_parse_security_handshake packet) ;;
  t <- lift (unpack (native [cB]) (slice packet None (Some 1))) ;;
  n <- lift (item t 0) ;;
  if n =? 0 then
    _internal_error packet (Cannot_parse_security_handshake packet) ;;
    ret (PyInt 0)
  else
    security_types <-
      lift (unpack (native (repeat cB (Z.to_nat n))) (slice packet (Some 1) None)) ;;
    let st := fold_left convert_append security_types [] in
    log (Log_security_types packet st) ;;
    let accept :=
      set_packet_parser AwaitingSecurityResult ;;
      reply <- lift (pack (native [cB]) [0]) ;;
      send reply ;;
      ret (PyInt (1 + n)) in
    match st with
    | st0 :: _ =>
        if negb (int_of st0 =? RFBAuth_NONE) then
          _internal_error packet (Security_type_not_supported st0) ;;
          ret (PyInt 0)
        else accept
    | [] => accept
    end.

Definition _parse_security_result (packet : bytes) : M value :=
  if len packet <? 4 then ret (PyInt 0)
  else
    t <- lift (unpack (native [cI]) (slice packet None (Some 4))) ;;
    r <- lift (item t 0) ;;
    if negb (r =? 0) then
      _internal_error packet (Authentication_denied r) ;;
      ret (PyInt 0)
    else
      log (Log_parse_security_result_success packet) ;;
      set_packet_parser AwaitingClientInit ;;
      let share := false in
      reply <- lift (pack (native [cB]) [Z.b2z share]) ;;
      send reply ;;
      ret (PyInt 4).

Definition send_set_encodings : M unit :=
  packet <- lift (pack (network [cB; cB; cH; ci])
                    [RFBClientMessage_SetEncodings; 0; 1; RFBEncoding_RAW]) ;;
  send packet.

Definition _parse_client_init (packet : bytes) : M value :=
  log (Log_parse_client_init packet) ;;
  let ci_size := calcsize CLIENT_INIT in
  if len packet <? ci_size then ret (PyInt 0)
  else
    t <- lift (unpack CLIENT_INIT (slice packet None (Some ci_size))) ;;
    name_size <- lift (last_item t) ;;
    if len packet <? ci_size + name_size then ret (PyInt 0)
    else
      let session_name :=
        bytestostr (slice packet (Some ci_size) (Some (ci_size + name_size))) in
      log (Log_server_session session_name) ;;
      set_packet_parser SteadyStateUpdates ;;
      send_set_encodings ;;
      ret (PyInt (ci_size + name_size)).

Definition _parse_rfb_packet (packet : bytes) : M value :=
  log (Log_parse_rfb_packet packet) ;;
  let header_size := calcsize (network [cB; cB; cH; cH; cH; cH; cH; ci]) in
  if len packet <=? header_size then ret (PyInt 0)
  else
    marker <- lift (pack (network [cB; cB; cH]) [0; 0; 1]) ;;
    if negb (bytes_eqb (slice packet None (Some 4)) marker) then
      invalid Unknown_packet packet ;;
      ret (PyInt 0)
    else
      t <- lift (unpack (network [cH; cH; cH; cH; ci])
                   (slice packet (Some 4) (Some header_size))) ;;
      match t with
      | [x; y; w; h; encoding] =>
          if negb (encoding =? RFBEncoding_RAW) then
            invalid (Invalid_encoding encoding) packet ;;
            ret PyNone
          else
            log (Log_screen_update x y w h) ;;
            if len packet <? header_size + w * h * 4 then ret (PyInt 0)
            else ret (PyInt (header_size + w * h * 4))
      | _ => lift (inl ValueError)
      end.

(** The method [self._packet_parser] is bound to. *)
Definition handler (p : ParseState) : bytes -> M value :=
  match p with
  | AwaitingSecurityHandshake => _parse_security_handshake
  | AwaitingSecurityResult => _parse_security_result
  | AwaitingClientInit => _parse_client_init
  | SteadyStateUpdates => _parse_rfb_packet
  end.

(** Modelled from the spec: the read loop of the base class is not among
    the sources; section 4.1 gives its entry point [feed], which calls
    [self._packet_parser] on the whole unconsumed buffer. *)
Definition feed (buffer : bytes) : M value :=
  fun s => handler (packet_parser s) buffer s.

End RFBClientProtocol.

(** Modelled from the spec: [xpra.net.rfb.rfb_const] and [bytestostr]
    are not among the sources.  These are the values the RFB protocol
    assigns (security types Invalid 0, None 1, VNC 2; message type
    SetEncodings 2; encoding Raw 0, as in section 8; the 24 byte
    ServerInit header: width, height, the 16 byte pixel format, name
    length), used to run the parser on concrete buffers. *)
Module Rfb.

Definition RFBAuth_values : list Z := [0; 1; 2].
Definition RFBAuth_NONE : Z := 1.
Definition SetEncodings : Z := 2.
Definition RAW : Z := 0.
Definition CLIENT_INIT : format :=
  network ([cH; cH] ++ [cB; cB; cB; cB; cH; cH; cH; cB; cB; cB; cB; cB; cB] ++ [cI]).

(** latin-1: every byte is the character of the same code. *)
Definition bytestostr (b : bytes) : String.string :=
  String.string_of_list_byte b.

Definition parse_security_handshake :=
  _parse_security_handshake RFBAuth_values RFBAuth_NONE.
Definition parse_client_init :=
  _parse_client_init SetEncodings RAW CLIENT_INIT bytestostr.
Definition parse_rfb_packet := _parse_rfb_packet RAW.

Definition fresh (p : ParseState) : session := mkSession p [] [] [].

(** A server init with a zeroed header and the two byte name "hi". *)
Definition client_init_message : bytes :=
  repeat x00 23 ++ [x02; x68; x69].

(** A raw rectangle header at (0, 0) of 65535 by 65535 pixels, and one
    byte of its payload. *)
Definition largest_rectangle : bytes :=
  [x00; x00; x00; x01; x00; x00; x00; x00; xff; xff; xff; xff;
   x00; x00; x00; x00; x2a].

(** A raw rectangle header at (1, 2) of 2 by 2 pixels and its 16
    payload bytes. *)
Definition small_rectangle : bytes :=
  [x00; x00; x00; x01; x00; x01; x00; x02; x00; x02; x00; x02;
   x00; x00; x00; x00] ++ repeat x7f 16.

(** The header of a rectangle of 0 by 7 pixels, and nothing else. *)
Definition empty_rectangle : bytes :=
  [x00; x00; x00; x01; x00; x00; x00; x00; x00; x00; x00; x07;
   x00; x00; x00; x00].

End Rfb.

(** ** Vocabulary of the properties *)

(** Nothing was sent, no abort was signalled and [_packet_parser] is
    bound as before; only the logger may have been called. *)
Definition quiet (s s' : session) : Prop :=
  packet_parser s' = packet_parser s
  /\ sent s' = sent s
  /\ aborts s' = aborts s.

(** A call that ended on a fatal path: one more abort call, and the
    parser state and the sends as they were. *)
Definition fatal (s s' : session) : Prop :=
  (exists c, aborts s' = aborts s ++ [c])
  /\ packet_parser s' = packet_parser s
  /\ sent s' = sent s.

(** The same method called on a sequence of buffers, as the transport
    does while the buffer grows: the results in order, and the session
    at the end. *)
Fixpoint refeed (h : bytes -> M value) (buffers : list bytes) (s : session)
    : list (exn + value) * session :=
  match buffers with
  | [] => ([], s)
  | b :: rest =>
      let (r, s') := h b s in
      let (rs, s'') := refeed h rest s' in
      (r :: rs, s'')
  end.

(** The 32-bit status code at the head of a buffer, as the native
    [I] reads it. *)
Definition status_code (packet : bytes) : Z :=
  decode Native cI (firstn 4 packet).

(** The specification's reading of the client-init header: the name
    length is its last field, that is the last bytes of the first
    [calcsize] bytes of the buffer, read with the last format character. *)
Definition name_length (f : format) (packet : bytes) : Z :=
  let header := firstn (Z.to_nat (calcsize f)) packet in
  match rev (codes f) with
  | c :: _ => decode (order f) c (skipn (length header - code_size c) header)
  | [] => 0
  end.

(** The buffer does not hold the client-init header and the name yet. *)
Definition incomplete (f : format) (packet : bytes) : Prop :=
  len packet < calcsize f \/ len packet < calcsize f + name_length f packet.

(** The specification's reading of the set-encodings message:
    message-type byte, one padding byte, 16-bit big-endian count 1,
    32-bit big-endian encoding code. *)
Definition set_encodings_message (message_type encoding : Z) : bytes :=
  [byte_of_Z message_type] ++ [x00] ++ [x00; x01] ++ be_bytes 4 encoding.

(** The fields of a rectangle header by their offsets in the buffer. *)
Definition rect_marker : bytes := [x00; x00; x00; x01].

Definition uint16_at (off : nat) (packet : bytes) : Z :=
  be_value (firstn 2 (skipn off packet)).

Definition rect_x : bytes -> Z := uint16_at 4.
Definition rect_y : bytes -> Z := uint16_at 6.
Definition rect_width : bytes -> Z := uint16_at 8.
Definition rect_height : bytes -> Z := uint16_at 10.

Definition rect_encoding (packet : bytes) : Z :=
  decode Network ci (firstn 4 (skipn 12 packet)).

Definition payload_length (packet : bytes) : Z :=
  rect_width packet * rect_height packet * 4.

(** A buffer that opens with a raw rectangle header the parser reads:
    more than the 16 header bytes, the marker, the raw encoding. *)
Definition raw_rectangle (RAW : Z) (packet : bytes) : Prop :=
  16 < len packet
  /\ firstn 4 packet = rect_marker
  /\ rect_encoding packet = RAW.

(** The largest payload length the two 16-bit fields can express. *)
Definition max_payload : Z := 65535 * 65535 * 4.

(** The parser enforces [cap] on the payload length when it never
    answers a raw rectangle whose payload exceeds [cap] with a plain
    "need more data" (return 0, no abort). *)
Definition payload_capped (RAW cap : Z) : Prop :=
  forall (packet : bytes) (s : session),
    raw_rectangle RAW packet ->
    cap < payload_length packet ->
    ~ (fst (_parse_rfb_packet RAW packet s) = inr (PyInt 0)
       /\ aborts (snd (_parse_rfb_packet RAW packet s)) = aborts s).

(** ** The cipher backend driven by [crypto_test.py] *)

(** What the test asks of a backend module: [get_key], [get_encryptor]
    and [get_decryptor], and of the objects the last two return:
    [encrypt] and [decrypt], which keep state from call to call (the
    state is threaded).  A call may raise (an exception of the
    backend, of type [raised]) or return [None]; the test asserts of
    every result that it is not [None]. *)
Class CipherBackend (encryptor decryptor raised : Type) : Type := {
  get_key : String.string -> bytes -> Z -> Z -> raised + option bytes;
  get_encryptor : bytes -> bytes -> raised + option encryptor;
  get_decryptor : bytes -> bytes -> raised + option decryptor;
  encrypt : encryptor -> bytes -> (raised + option bytes) * encryptor;
  decrypt : decryptor -> bytes -> (raised + option bytes) * decryptor
}.

(** How the test ends when it does not pass: with an exception of its
    own ([AssertionError], [IndexError]) or with one raised by the code
    it calls. *)
Inductive failure (raised : Type) : Type :=
| Failed (e : exn)
| Raised (r : raised).

Arguments Failed {raised} e.
Arguments Raised {raised} r.

(** The string literal of the test. *)
Module Fixture.
Import String.
Definition password : string := "this is our secret"%string.
End Fixture.

Section Calls.

Context {encryptor decryptor raised : Type}
        {backend : CipherBackend encryptor decryptor raised}.

(** [xpra.os_util.hexstr] is not among the sources; the test applies
    it to the key and to every output of [decrypt] before it asserts
    that they are not [None], so whether it raises is a parameter. *)
Variable hexstr : option bytes -> raised + String.string.

(** [assert v is not None], for the result of a call. *)
Definition not_none {A : Type} (r : raised + option A) : failure raised + A :=
  match r with
  | inl e => inl (Raised e)
  | inr None => inl (Failed AssertionError)
  | inr (Some a) => inr a
  end.

(** The evaluation of the arguments of a [log] call that holds
    [hexstr(v)]. *)
Definition logged_hex (v : option bytes) : failure raised + unit :=
  match hexstr v with
  | inl e => inl (Raised e)
  | inr _ => inr tt
  end.

(** [mustequ(l)]: every element equals the first. *)
Definition mustequ (l : list bytes) : failure raised + unit :=
  match l with
  | [] => inr tt
  | v :: _ =>
      if forallb (fun li => bytes_eqb li v) l then inr tt
      else inl (Failed AssertionError)
  end.

(** [for i in range(encrypt_count)]: encrypt the message, assert that
    the output is not [None], keep the first output. *)
Fixpoint encrypt_loop (indices : list nat) (enc : encryptor) (message : bytes)
    (encrypted : list bytes) : failure raised + list bytes :=
  match indices with
  | [] => inr encrypted
  | i :: rest =>
      let (r, enc') := encrypt enc message in
      match not_none r with
      | inl f => inl f
      | inr v =>
          encrypt_loop rest enc' message
            (if Nat.eqb i 0 then encrypted ++ [v] else encrypted)
      end
  end.

(** [for i in range(decrypt_count)]: decrypt [encrypted[0]], evaluate
    the [log] arguments, assert that the output is not [None], keep
    the first output. *)
Fixpoint decrypt_loop (indices : list nat) (dec : decryptor)
    (encrypted : list bytes) (decrypted : list bytes)
    : failure raised + list bytes :=
  match indices with
  | [] => inr decrypted
  | i :: rest =>
      match encrypted with
      | [] => inl (Failed IndexError)
      | e0 :: _ =>
          let (r, dec') := decrypt dec e0 in
          match r with
          | inl e => inl (Raised e)
          | inr v =>
              match logged_hex v with
              | inl f => inl f
              | inr _ =>
                  match not_none (inr v) with
                  | inl f => inl f
                  | inr v' =>
                      decrypt_loop rest dec' encrypted
                        (if Nat.eqb i 0 then decrypted ++ [v'] else decrypted)
                  end
              end
          end
      end
  end.

(** The set-up of the test (lines 42 to 59): the key, the encryptor and
    the decryptor, each asserted not to be [None]. *)
Definition set_up (DEFAULT_SALT : bytes) (DEFAULT_ITERATIONS DEFAULT_BLOCKSIZE : Z)
    (DEFAULT_IV : bytes) : failure raised + (encryptor * decryptor) :=
  let password := Fixture.password in
  let key_salt := DEFAULT_SALT in
  let iterations := DEFAULT_ITERATIONS in
  let block_size := DEFAULT_BLOCKSIZE in
  match get_key password key_salt block_size iterations with
  | inl e => inl (Raised e)
  | inr secret =>
      match logged_hex secret with
      | inl f => inl f
      | inr _ =>
          match not_none (inr secret) with
          | inl f => inl f
          | inr secret =>
              let iv := DEFAULT_IV in
              match not_none (get_encryptor secret iv) with
              | inl f => inl f
              | inr enc =>
                  match not_none (get_decryptor secret iv) with
                  | inl f => inl f
                  | inr dec => inr (enc, dec)
                  end
              end
          end
      end
  end.

(** [TestCrypto.do_test_backend]; the [%s] formatting of the two [log]
    calls for the encryptor and the decryptor is taken to return; the
    defaults of [xpra.net.crypto] are
    arguments.  [inr tt] when the test passes. *)
Definition do_test_backend (DEFAULT_SALT : bytes)
    (DEFAULT_ITERATIONS DEFAULT_BLOCKSIZE : Z) (DEFAULT_IV : bytes)
    (message : bytes) (encrypt_count decrypt_count : nat)
    : failure raised + unit :=
  match set_up DEFAULT_SALT DEFAULT_ITERATIONS DEFAULT_BLOCKSIZE DEFAULT_IV with
  | inl f => inl f
  | inr (enc, dec) =>
      match encrypt_loop (seq 0 encrypt_count) enc message [] with
      | inl f => inl f
      | inr encrypted =>
          match mustequ encrypted with
          | inl f => inl f
          | inr _ =>
              match decrypt_loop (seq 0 decrypt_count) dec encrypted [] with
              | inl f => inl f
              | inr decrypted =>
                  match mustequ decrypted with
                  | inl f => inl f
                  | inr _ =>
                      match decrypted with
                      | [] => inr tt
                      | d0 :: _ => mustequ [d0; message]
                      end
                  end
              end
          end
      end
  end.

(** Every call returns a value: no call of the backend raises or
    returns [None], and [hexstr] does not raise. *)
Definition returns_value : Prop :=
  (forall password salt block_size iterations, exists secret,
      get_key password salt block_size iterations = inr (Some secret))
  /\ (forall secret iv, exists enc, get_encryptor secret iv = inr (Some enc))
  /\ (forall secret iv, exists dec, get_decryptor secret iv = inr (Some dec))
  /\ (forall enc m, exists c, fst (encrypt enc m) = inr (Some c))
  /\ (forall dec c, exists m, fst (decrypt dec c) = inr (Some m))
  /\ (forall v, exists s, hexstr v = inr s).

End Calls.

(** A backend to run the test on: every call returns a value, and
    [encrypt] and [decrypt] return their input. *)
#[export] Instance plain_backend : CipherBackend unit unit Empty_set := {
  get_key := fun _ salt _ _ => inr (Some salt);
  get_encryptor := fun _ _ => inr (Some tt);
  get_decryptor := fun _ _ => inr (Some tt);
  encrypt := fun e m => (inr (Some m), e);
  decrypt := fun d c => (inr (Some c), d)
}.

(** A backend whose [decrypt] raises, and one whose [decrypt] returns
    [None]; the rest as in [plain_backend]. *)
#[export] Instance raising_decrypt_backend : CipherBackend unit unit unit := {
  get_key := fun _ salt _ _ => inr (Some salt);
  get_encryptor := fun _ _ => inr (Some tt);
  get_decryptor := fun _ _ => inr (Some tt);
  encrypt := fun e m => (inr (Some m), e);
  decrypt := fun d _ => (inl tt, d)
}.

#[export] Instance silent_decrypt_backend : CipherBackend unit unit unit := {
  get_key := fun _ salt _ _ => inr (Some salt);
  get_encryptor := fun _ _ => inr (Some tt);
  get_decryptor := fun _ _ => inr (Some tt);
  encrypt := fun e m => (inr (Some m), e);
  decrypt := fun d _ => (inr None, d)
}.

(** A [hexstr] that returns. *)
Definition no_hex {raised : Type} (v : option bytes) : raised + String.string :=
  inr String.EmptyString.

(** ** Vocabulary of the session invariants *)

(** The place of a parser state in the order a session passes through
    them, and the state the parser binds on success. *)
Definition stage (p : ParseState) : nat :=
  match p with
  | AwaitingSecurityHandshake => 0
  | AwaitingSecurityResult => 1
  | AwaitingClientInit => 2
  | SteadyStateUpdates => 3
  end.

Definition next_state (p : ParseState) : ParseState :=
  match p with
  | AwaitingSecurityHandshake => AwaitingSecurityResult
  | AwaitingSecurityResult => AwaitingClientInit
  | AwaitingClientInit => SteadyStateUpdates
  | SteadyStateUpdates => SteadyStateUpdates
  end.

(** What one call did to the state and the sends: nothing; or it bound
    the next parser, after which it sent one message and returned a
    count, or raised before sending. *)
Definition one_step (s : session) (r : exn + value) (s' : session) : Prop :=
  (packet_parser s' = packet_parser s /\ sent s' = sent s)
  \/ (packet_parser s <> SteadyStateUpdates
      /\ packet_parser s' = next_state (packet_parser s)
      /\ aborts s' = aborts s
      /\ ((exists m n, sent s' = sent s ++ [m] /\ r = inr (PyInt n))
          \/ (sent s' = sent s /\ exists e, r = inl e))).

(** * [xpra/x11/vfb_util.py] *)

From Stdlib Require Ascii Decimal DecimalString DecimalN DecimalPos DecimalZ.

(** ** Python strings

    A [str] is modelled by the list of its characters, for strings of
    ASCII characters; each method is the Python method on ASCII
    strings, for the arguments the module calls it with. *)
Module PyStr.

Import Ascii.

Definition str := list ascii.

Definition lit (s : String.string) : str := String.list_ascii_of_string s.

Definition ord (c : ascii) : N := N_of_ascii c.

Definition is_ascii (s : str) : bool := forallb (fun c => N.ltb (ord c) 128) s.

Fixpoint str_eqb (a b : str) : bool :=
  match a, b with
  | [], [] => true
  | x :: a', y :: b' => Ascii.eqb x y && str_eqb a' b'
  | _, _ => false
  end.

(** [s.upper()] *)
Definition upper_char (c : ascii) : ascii :=
  if N.leb 97 (ord c) && N.leb (ord c) 122 then ascii_of_N (ord c - 32) else c.

Definition upper (s : str) : str := map upper_char s.

(** [s.replace(old, new)] for one-character [old] and [new]. *)
Definition replace (old new : ascii) (s : str) : str :=
  map (fun c => if Ascii.eqb c old then new else c) s.

(** The part before the first [sep], and the part after it if there is
    one. *)
Fixpoint partition (sep : ascii) (s : str) : str * option str :=
  match s with
  | [] => ([], None)
  | c :: rest =>
      if Ascii.eqb c sep then ([], Some rest)
      else let (a, b) := partition sep rest in (c :: a, b)
  end.

(** [s.split(sep, 1)] for a one-character [sep]. *)
Definition split1 (sep : ascii) (s : str) : list str :=
  match partition sep s with
  | (a, Some b) => [a; b]
  | (a, None) => [a]
  end.

(** [s.lstrip(c)] for a one-character [c]. *)
Fixpoint lstrip (c : ascii) (s : str) : str :=
  match s with
  | x :: rest => if Ascii.eqb x c then lstrip c rest else s
  | [] => []
  end.

Definition rstrip (c : ascii) (s : str) : str := rev (lstrip c (rev s)).

(** [s.endswith(suffix)] *)
Definition startswith (prefix s : str) : bool :=
  str_eqb (firstn (length prefix) s) prefix.

Definition endswith (suffix s : str) : bool :=
  startswith (rev suffix) (rev s).

(** [sep.join(parts)] *)
Fixpoint join (sep : str) (parts : list str) : str :=
  match parts with
  | [] => []
  | [p] => p
  | p :: rest => p ++ sep ++ join sep rest
  end.

(** *** [int(s)] and [str(n)]

    [max_str_digits] is [sys.get_int_max_str_digits()]: 0 when the
    interpreter has no limit, else the number of digits beyond which
    the conversions raise [ValueError]. *)

Definition is_space (c : ascii) : bool :=
  (N.leb 9 (ord c) && N.leb (ord c) 13) || N.eqb (ord c) 32.

Fixpoint lstrip_space (s : str) : str :=
  match s with
  | x :: rest => if is_space x then lstrip_space rest else s
  | [] => []
  end.

Definition strip_space (s : str) : str :=
  rev (lstrip_space (rev (lstrip_space s))).

Definition digit_value (c : ascii) : option Z :=
  if N.leb 48 (ord c) && N.leb (ord c) 57 then Some (Z.of_N (ord c) - 48)
  else None.

(** Digits, with single underscores between digits: the value and the
    number of digits, after [acc] and [count] for the digits read so
    far; [after_digit] tells whether the last character was a digit. *)
Fixpoint read_digits (acc : Z) (count : nat) (after_digit : bool) (s : str)
    : option (Z * nat) :=
  match s with
  | [] => if after_digit then Some (acc, count) else None
  | c :: rest =>
      match digit_value c with
      | Some d => read_digits (10 * acc + d) (S count) true rest
      | None =>
          if Ascii.eqb c "_" && after_digit then read_digits acc count false rest
          else None
      end
  end.

(** The characters an integer literal is made of. *)
Definition literal_char (c : ascii) : bool :=
  is_space c
  || Ascii.eqb c "-" || Ascii.eqb c "+" || Ascii.eqb c "_"
  || match digit_value c with Some _ => true | None => false end.

Definition over_limit (max_str_digits count : nat) : bool :=
  negb (Nat.eqb max_str_digits 0) && Nat.ltb max_str_digits count.

Definition int (max_str_digits : nat) (s : str) : exn + Z :=
  let t := strip_space s in
  let (sign, body) :=
    match t with
    | c :: rest =>
        if Ascii.eqb c "-" then (-1, rest)
        else if Ascii.eqb c "+" then (1, rest)
        else (1, t)
    | [] => (1, t)
    end in
  match read_digits 0 0 false body with
  | Some (v, count) =>
      if over_limit max_str_digits count then inl ValueError else inr (sign * v)
  | None => inl ValueError
  end.

(** The decimal digits of an integer, with a minus sign when it is
    negative. *)
Definition decimal (z : Z) : str :=
  lit (DecimalString.NilEmpty.string_of_int (Z.to_int z)).

Definition digit_count (z : Z) : nat :=
  Decimal.nb_digits (N.to_uint (Z.abs_N z)).

Definition to_str (max_str_digits : nat) (z : Z) : exn + str :=
  if over_limit max_str_digits (digit_count z) then inl ValueError
  else inr (decimal z).

End PyStr.

(** ** [os.path] on POSIX *)
Module PosixPath.

Import Ascii PyStr.

Definition sep : ascii := "/"%char.

Definition all_sep (s : str) : bool := forallb (Ascii.eqb sep) s.

(** The characters of a reversed path from its first [sep] on. *)
Fixpoint from_sep (r : str) : str :=
  match r with
  | [] => []
  | c :: rest => if Ascii.eqb c sep then r else from_sep rest
  end.

(** [p[:p.rfind('/') + 1]] *)
Definition head (p : str) : str := rev (from_sep (rev p)).

(** [os.path.dirname(p)] *)
Definition dirname (p : str) : str :=
  let h := head p in
  match h with
  | [] => h
  | _ :: _ => if all_sep h then h else rstrip sep h
  end.

(** [os.path.join(a, b)] *)
Definition join (a b : str) : str :=
  if startswith [sep] b then b
  else match a with
       | [] => a ++ b
       | _ :: _ => if endswith [sep] a then a ++ b else a ++ [sep] ++ b
       end.

(** Each path of the list is the [dirname] of the one after it. *)
Fixpoint parent_chain (l : list str) : Prop :=
  match l with
  | a :: (b :: _) as rest => a = dirname b /\ parent_chain rest
  | _ => True
  end.

End PosixPath.

(** ** The module *)
Module VfbUtil.

Import Ascii String PyStr.

(** An argument of a logger call or of a format. *)
Inductive arg : Type :=
| AStr (s : str)
| AInt (z : Z)
| ABytes (b : bytes)
| ABool (b : bool)
| AStrs (l : list str)
| AObject.

Inductive level : Type := Debug | Info | Warn | Error.

(** What the module does to the outside, in the order it does it. *)
Inductive call : Type :=
| Log (l : level) (format : str) (args : list arg)
| Mkdir (dirname : str)
| Lchown (path : str) (uid gid : Z)
| OpenWb (path : str)
| Write (path : str) (data : bytes)
| Fchown (path : str) (uid gid : Z)
| Close (path : str).

Definition is_os_call (c : call) : bool :=
  match c with
  | Log _ _ _ => false
  | _ => true
  end.

Definition RESOLUTION_ALIASES : list (str * (Z * Z)) :=
  [ (lit "QVGA", (320, 240));
    (lit "VGA", (640, 480));
    (lit "SVGA", (800, 600));
    (lit "XGA", (1024, 768));
    (lit "1080P", (1920, 1080));
    (lit "FHD", (1920, 1080));
    (lit "4K", (3840, 2160)) ].

(** The two characters [parse_resolution] splits at, and how many of
    them a string holds. *)
Definition is_separator (c : ascii) : bool :=
  Ascii.eqb c "x" || Ascii.eqb c ",".

Definition separators (s : str) : nat := List.length (filter is_separator s).

(** A separator after [upper]. *)
Definition upper_separator (c : ascii) : bool :=
  Ascii.eqb c "X" || Ascii.eqb c ",".

(** [d.get(key)] *)
Fixpoint dict_get {V : Type} (d : list (str * V)) (key : str) : option V :=
  match d with
  | [] => None
  | (k, v) :: rest => if str_eqb k key then Some v else dict_get rest key
  end.

(** Vocabulary of the properties: the calls that touch the system, the
    calls that create one directory and those that write one file, a
    path that is missing, and a file system where the root exists. *)
Definition os_calls (t : list call) : list call := filter is_os_call t.

Definition is_error (c : call) : bool :=
  match c with
  | Log Error _ _ => true
  | _ => false
  end.

Definition errors (t : list call) : nat := List.length (filter is_error t).

Definition dir_calls (uid gid : Z) (d : str) : list call :=
  [Mkdir d; Lchown d uid gid].

Definition file_calls (uid gid : Z) (path : str) (data : bytes) : list call :=
  [OpenWb path; Write path data; Fchown path uid gid; Close path].

Definition missing (exists_ : str -> bool) (d : str) : Prop :=
  d <> [] /\ exists_ d = false.

Definition roots_exist (exists_ : str -> bool) : Prop :=
  forall p, p <> [] -> PosixPath.all_sep p = true -> exists_ p = true.

(** A file system where only the root exists. *)
Definition only_root (p : str) : bool :=
  match p with
  | [] => false
  | _ :: _ => PosixPath.all_sep p
  end.

Section Module_.

(** [sys.get_int_max_str_digits()], the state of the file system as
    [os.path.exists] sees it, and the two converters of [xpra.os_util]
    (not among the sources). *)
Variable max_str_digits : nat.
Variable exists_ : str -> bool.
Variable bytestostr : bytes -> str.
Variable strtobytes : str -> bytes.

(** [tuple(int(x) for x in parts)] *)
Fixpoint ints (parts : list str) : exn + list Z :=
  match parts with
  | [] => inr []
  | p :: rest =>
      match int max_str_digits p with
      | inl e => inl e
      | inr v =>
          match ints rest with
          | inl e => inl e
          | inr vs => inr (v :: vs)
          end
      end
  end.

Definition parse_resolution (s : str) : exn + (Z * Z) :=
  match dict_get RESOLUTION_ALIASES (upper s) with
  | Some v => inr v
  | None =>
      match ints (split1 "x" (replace "," "x" s)) with
      | inl e => inl e
      | inr [w; h] => inr (w, h)
      | inr _ => inl AssertionError
      end
  end.

Definition parse_env_resolution (environ : str -> option str)
    (envkey default_res : str) : exn + (Z * Z) :=
  let s := match environ envkey with
           | Some v => v
           | None => default_res
           end in
  parse_resolution s.

(** [str(x)] for each [x], stopping at the first that raises. *)
Fixpoint strs (xs : list Z) : exn + list str :=
  match xs with
  | [] => inr []
  | x :: rest =>
      match to_str max_str_digits x with
      | inl e => inl e
      | inr s =>
          match strs rest with
          | inl e => inl e
          | inr ss => inr (s :: ss)
          end
      end
  end.

(** ["%02i" % i] *)
Definition format_02i (i : Z) : exn + str :=
  match to_str max_str_digits i with
  | inl e => inl e
  | inr d => inr (if Nat.ltb (List.length d) 2 then "0"%char :: d else d)
  end.

Definition newline : str := [ascii_of_N 10].

Definition dquote : str := [ascii_of_N 34].

Definition quoted (s : str) : str := dquote ++ s ++ dquote.

(** The text of one input class section. *)
Definition input_conf_text (identifier product_name upper_dev_type : str) : str :=
  lit "Section " ++ quoted (lit "InputClass") ++ newline
  ++ lit "Identifier " ++ quoted identifier ++ newline
  ++ lit "MatchProduct " ++ quoted product_name ++ newline
  ++ lit "MatchUSBID " ++ quoted (lit "ffff:ffff") ++ newline
  ++ lit "MatchIs" ++ upper_dev_type ++ lit " " ++ quoted (lit "True") ++ newline
  ++ lit "Driver " ++ quoted (lit "libinput") ++ newline
  ++ lit "Option " ++ quoted (lit "AccelProfile") ++ lit " " ++ quoted (lit "flat") ++ newline
  ++ lit "Option " ++ quoted (lit "Ignore") ++ lit " " ++ quoted (lit "False") ++ newline
  ++ lit "EndSection" ++ newline.

(** A function body: it may raise, and the calls made so far stay
    made. *)
Definition OS (A : Type) : Type := list call -> (exn + A) * list call.

Definition os_ret {A : Type} (a : A) : OS A := fun t => (inr a, t).

Definition os_bind {A B : Type} (c : OS A) (k : A -> OS B) : OS B :=
  fun t =>
    match c t with
    | (inr a, t') => k a t'
    | (inl e, t') => (inl e, t')
    end.

Definition os_lift {A : Type} (r : exn + A) : OS A := fun t => (r, t).

Definition emit (c : call) : OS unit := fun t => (inr tt, t ++ [c]).

Definition debug (format : str) (args : list arg) : OS unit :=
  emit (Log Debug format args).

Definition log_error (format : str) (args : list arg) : OS unit :=
  emit (Log Error format args).

(** [for x in xs: body(x)] *)
Fixpoint for_each {A : Type} (xs : list A) (body : A -> OS unit) : OS unit :=
  match xs with
  | [] => os_ret tt
  | x :: rest => os_bind (body x) (fun _ => for_each rest body)
  end.

(** [save_input_conf]: the calls are those made when none of them
    fails; a failing call would end the sequence there. *)
Definition save_input_conf (xorg_conf_dir : str) (i : Z) (dev_type : str)
    (device_uuid : bytes) (uid gid : Z) : OS str :=
  let upper_dev_type := upper (firstn 1 dev_type) ++ skipn 1 dev_type in
  let product_name :=
    lit "Xpra Virtual " ++ upper_dev_type ++ lit " " ++ bytestostr device_uuid in
  let identifier := lit "xpra-virtual-" ++ dev_type in
  os_bind (os_lift (format_02i i)) (fun number =>
  let conf_file :=
    PosixPath.join xorg_conf_dir (number ++ lit "-" ++ dev_type ++ lit ".conf") in
  os_bind (emit (OpenWb conf_file)) (fun _ =>
  os_bind (emit (Write conf_file
                   (strtobytes (input_conf_text identifier product_name upper_dev_type))))
    (fun _ =>
  os_bind (emit (Fchown conf_file uid gid)) (fun _ =>
  os_bind (emit (Close conf_file)) (fun _ =>
  os_ret conf_file))))).

(** The [while d and not os.path.exists(d)] loop: the directories to
    create, parents first, or [None] when [fuel] turns do not end it. *)
Fixpoint scan_dirs (fuel : nat) (d : str) (dirs : list str) (t : list call)
    : option (list str * list call) :=
  match fuel with
  | O => None
  | S fuel' =>
      match d with
      | [] => Some (dirs, t)
      | _ :: _ =>
          if exists_ d then Some (dirs, t)
          else scan_dirs fuel' (PosixPath.dirname d) (d :: dirs)
                 (t ++ [Log Debug (lit "create_device_configs: dir does not exist: %s")
                          [AStr d]])
      end
  end.

Definition makedir (uid gid : Z) (dirname : str) : OS unit :=
  os_bind (debug (lit "makedir(%s)") [AStr dirname]) (fun _ =>
  os_bind (emit (Mkdir dirname)) (fun _ =>
  emit (Lchown dirname uid gid))).

(** [create_xorg_device_configs]; [None] when the directory loop does
    not end within [fuel] turns. *)
Definition create_xorg_device_configs (fuel : nat) (xorg_conf_dir : str)
    (device_uuid : bytes) (uid gid : Z) (t : list call)
    : option ((exn + unit) * list call) :=
  let t := t ++ [Log Debug (lit "create_xorg_device_configs(%s, %s, %i, %i)")
                   [AStr xorg_conf_dir; ABytes device_uuid; AInt uid; AInt gid]] in
  match device_uuid with
  | [] => Some (inr tt, t)
  | _ :: _ =>
      match scan_dirs fuel xorg_conf_dir [] t with
      | None => None
      | Some (dirs, t) =>
          Some (os_bind (for_each dirs (makedir uid gid)) (fun _ =>
                for_each [(0, lit "pointer"); (1, lit "touchpad")]
                  (fun '(i, dev_type) =>
                     os_bind (save_input_conf xorg_conf_dir i dev_type
                                device_uuid uid gid)
                       (fun _ => os_ret tt))) t)
      end
  end.

(** The step of [start_Xvfb] that honours the initial geometry (lines
    174 to 189), on the command after [shlex.split] and the path
    expansion; the command has an element, as the lines before it
    ensure. *)
Fixpoint index_of (x : str) (l : list str) : option nat :=
  match l with
  | [] => None
  | y :: rest =>
      if str_eqb y x then Some O
      else match index_of x rest with
           | Some n => Some (S n)
           | None => None
           end
  end.

Fixpoint set_item (l : list str) (n : nat) (v : str) : list str :=
  match l, n with
  | [], _ => []
  | _ :: rest, O => v :: rest
  | y :: rest, S n' => y :: set_item rest n' v
  end.

Definition geom_str (vfb_geom : list Z) (pixel_depth : Z) : exn + str :=
  match strs vfb_geom with
  | inl e => inl e
  | inr parts =>
      match to_str max_str_digits pixel_depth with
      | inl e => inl e
      | inr depth => inr (PyStr.join (lit "x") parts ++ lit "x" ++ depth)
      end
  end.

Definition screen_geometry (vfb_geom : list Z) (pixel_depth : Z)
    (xvfb_cmd : list str) : exn + list str :=
  match vfb_geom, xvfb_cmd with
  | [], _ => inr xvfb_cmd
  | _ :: _, [] => inl IndexError
  | _ :: _, executable :: _ =>
          if endswith (lit "Xvfb") executable then
            match geom_str vfb_geom pixel_depth with
            | inl e => inl e
            | inr g =>
                match index_of (lit "0") xvfb_cmd with
                | Some (S before) =>
                    if str_eqb (nth before xvfb_cmd []) (lit "-screen")
                       && Nat.ltb (S (S before)) (List.length xvfb_cmd)
                    then inr (set_item xvfb_cmd (S (S before)) g)
                    else inr (xvfb_cmd ++ [lit "-screen"; lit "0"; g])
                | _ => inr (xvfb_cmd ++ [lit "-screen"; lit "0"; g])
                end
            end
          else inr xvfb_cmd
  end.

(** The process handle, what [wait_for_x_server] raises, and the two
    functions that look at the outside ([xpra.os_util.pollwait] and the
    binding [wait_for_x_server], not among the sources): the exit code
    of the process if it has ended, the exception raised if the server
    did not answer. *)
Variable process : Type.
Variable exception : Type.
Variable exception_str : exception -> str.
Variable pollwait : process -> Z -> option Z.
Variable wait_for_x_server : bytes -> Z -> option exception.

(** Whether the process, if there is one, has not ended when polled
    without waiting. *)
Definition still_running (xvfb : option process) : bool :=
  match xvfb with
  | None => true
  | Some p =>
      match pollwait p 0 with
      | None => true
      | Some _ => false
      end
  end.

Definition check_xvfb_process (xvfb : option process) (cmd : str) (timeout : Z)
    (command : list str) : OS bool :=
  match xvfb with
  | None => os_ret true
  | Some p =>
      match pollwait p timeout with
      | None => os_ret true
      | Some _ =>
          os_bind (log_error (lit "") []) (fun _ =>
          os_bind (log_error (lit "%s command has terminated! xpra cannot continue")
                     [AStr cmd]) (fun _ =>
          os_bind (log_error (lit " if the display is already running, try a different one,")
                     []) (fun _ =>
          os_bind (log_error (lit " or use the --use-display flag") []) (fun _ =>
          os_bind (match command with
                   | [] => os_ret tt
                   | _ :: _ => log_error (lit " full command: %s") [AStrs command]
                   end) (fun _ =>
          os_bind (log_error (lit "") []) (fun _ =>
          os_ret false))))))
      end
  end.

Definition verify_display_ready (xvfb : option process) (display_name : str)
    (shadowing_check log_errors : bool) (timeout : Z) : OS bool :=
  match wait_for_x_server (strtobytes display_name) timeout with
  | Some e =>
      os_bind (debug (lit "verify_display_ready%s")
                 [AObject; AStr display_name; ABool shadowing_check]) (fun _ =>
      os_bind (if log_errors then
                 os_bind (log_error
                            (lit "Error: failed to connect to display " ++ display_name)
                            []) (fun _ =>
                 log_error (lit " %s") [AStr (exception_str e)])
               else os_ret tt) (fun _ =>
      os_ret false))
  | None =>
      os_bind (if shadowing_check
               then check_xvfb_process xvfb (lit "Xvfb") 0 []
               else os_ret true) (fun running =>
      if shadowing_check && negb running then
        os_bind (debug (lit "verify_display_ready%s display exists, but the vfb process has terminated")
                   [AObject; AStr display_name; ABool shadowing_check; ABool log_errors])
          (fun _ =>
        os_bind (if log_errors then
                   os_bind (log_error
                              (lit "There is an X11 server already running on display "
                                 ++ display_name ++ lit ":") []) (fun _ =>
                   os_bind (log_error (lit "You may want to use:") []) (fun _ =>
                   os_bind (log_error
                              (lit "  'xpra upgrade " ++ display_name
                                 ++ lit "' if an instance of xpra is still connected to it")
                              []) (fun _ =>
                   os_bind (log_error
                              (lit "  'xpra --use-display start " ++ display_name
                                 ++ lit "' to connect xpra to an existing X11 server only")
                              []) (fun _ =>
                   log_error (lit "") []))))
                 else os_ret tt) (fun _ =>
        os_ret false))
      else os_ret true)
  end.

End Module_.

End VfbUtil.

(** * Properties *)

Example calcsize_rect_header :
  calcsize (network [cB; cB; cH; cH; cH; cH; cH; ci]) = 16.
Proof. reflexivity. Qed.

Example pack_marker :
  pack (network [cB; cB; cH]) [0; 0; 1] = inr [x00; x00; x00; x01].
Proof. reflexivity. Qed.

Example unpack_native_I :
  unpack (native [cI]) [x01; x00; x00; x00] = inr [1].
Proof. reflexivity. Qed.

Example unpack_signed :
  unpack (network [cH; ci]) [x01; x02; xff; xff; xff; xfe] = inr [258; -2].
Proof. reflexivity. Qed.

Example slice_examples :
  slice [1; 2; 3; 4; 5] None (Some 1) = [1]
  /\ slice [1; 2; 3; 4; 5] (Some 1) None = [2; 3; 4; 5]
  /\ slice [1; 2; 3; 4; 5] (Some 4) (Some 16) = [5]
  /\ slice [1; 2; 3; 4; 5] (Some 2) (Some (-1)) = [3; 4].
Proof. repeat split; reflexivity. Qed.

(** ** Bytes, slices and [struct] *)

Lemma byte_val_range (b : byte) : 0 <= byte_val b < 256.
Proof.
  unfold byte_val. pose proof (Byte.to_N_bounded b) as Hb. lia.
Qed.

Lemma byte_val_zero (b : byte) : byte_val b = 0 <-> b = x00.
Proof.
  split.
  - intros H. unfold byte_val in H.
    assert (Hn : Byte.to_N b = Byte.to_N x00) by (simpl; lia).
    apply (f_equal Byte.of_N) in Hn. rewrite !Byte.of_to_N in Hn.
    congruence.
  - intros ->. reflexivity.
Qed.

Lemma byte_of_val (b : byte) : byte_of_Z (byte_val b) = b.
Proof.
  unfold byte_of_Z. pose proof (byte_val_range b) as Hr.
  rewrite Z.mod_small by lia. unfold byte_val.
  rewrite N2Z.id, Byte.of_to_N. reflexivity.
Qed.

Lemma bytes_eqb_eq (a b : bytes) : bytes_eqb a b = true <-> a = b.
Proof.
  revert b. induction a as [|x a IH]; intros [|y b]; simpl;
    try (split; [discriminate | congruence]).
  - split; trivial.
  - rewrite andb_true_iff, IH. split.
    + intros [Hxy ->]. f_equal. now apply Byte.byte_dec_bl.
    + intros [= -> ->]. split; [now apply Byte.byte_dec_lb | reflexivity].
Qed.

Lemma len_nonneg {A : Type} (l : list A) : 0 <= len l.
Proof. unfold len. lia. Qed.

Lemma len_cons {A : Type} (x : A) (l : list A) : len (x :: l) = 1 + len l.
Proof. unfold len. simpl length. lia. Qed.

Lemma len_app {A : Type} (l1 l2 : list A) : len (l1 ++ l2) = len l1 + len l2.
Proof. unfold len. rewrite length_app. lia. Qed.

Section Slices.

Context {A : Type}.
Implicit Types l : list A.

Lemma slice_prefix l (k : Z) :
  0 <= k -> slice l None (Some k) = firstn (Z.to_nat k) l.
Proof.
  intros Hk. unfold slice, clamp_index, len.
  destruct (k <? 0) eqn:E; [lia|]. simpl skipn.
  rewrite Z.sub_0_r.
  destruct (Z.min_spec k (Z.of_nat (length l))) as [[Hlt ->]|[Hge ->]].
  - reflexivity.
  - rewrite Nat2Z.id, firstn_all. symmetry. apply firstn_all2. lia.
Qed.

Lemma slice_suffix l (k : Z) :
  0 <= k -> slice l (Some k) None = skipn (Z.to_nat k) l.
Proof.
  intros Hk. unfold slice, clamp_index, len.
  destruct (k <? 0) eqn:E; [lia|].
  destruct (Z.min_spec k (Z.of_nat (length l))) as [[Hlt ->]|[Hge ->]].
  - apply firstn_all2. rewrite length_skipn. lia.
  - rewrite Nat2Z.id, skipn_all. rewrite skipn_all2 by lia.
    now rewrite firstn_nil.
Qed.

Lemma slice_middle l (a b : Z) :
  0 <= a <= b ->
  slice l (Some a) (Some b) = firstn (Z.to_nat (b - a)) (skipn (Z.to_nat a) l).
Proof.
  intros Hab. unfold slice, clamp_index, len.
  destruct (a <? 0) eqn:Ea; [lia|]. destruct (b <? 0) eqn:Eb; [lia|].
  set (n := Z.of_nat (length l)).
  destruct (Z.min_spec a n) as [[Ha ->]|[Ha ->]];
    destruct (Z.min_spec b n) as [[Hb ->]|[Hb ->]]; try lia.
  - reflexivity.
  - rewrite !firstn_all2; trivial; rewrite length_skipn; lia.
  - unfold n. rewrite Nat2Z.id, skipn_all, skipn_all2 by lia.
    now rewrite !firstn_nil.
Qed.

Lemma slice_len_prefix l (k : Z) :
  0 <= k <= len l -> len (slice l None (Some k)) = k.
Proof.
  intros Hk. rewrite slice_prefix by lia. unfold len in *.
  rewrite length_firstn. lia.
Qed.

End Slices.

Lemma align_native_B (off : nat) : align Native off (code_size cB) = off.
Proof.
  unfold align. cbn [code_size]. rewrite !Nat.mod_1_r. lia.
Qed.

Lemma end_offset_B (o : byte_order) (k off : nat) :
  end_offset o off (repeat cB k) = (off + k)%nat.
Proof.
  revert off. induction k as [|k IH]; intros off; simpl repeat.
  - simpl. lia.
  - cbn [end_offset]. destruct o.
    + rewrite align_native_B, IH. simpl. lia.
    + cbn [align]. rewrite IH. simpl. lia.
Qed.

Lemma decode_B (o : byte_order) (b : byte) : decode o cB [b] = byte_val b.
Proof. destruct o; reflexivity. Qed.

Lemma unpack_fields_B_shift (k off : nat) (b : byte) (buf : bytes) :
  unpack_fields Native (S off) (repeat cB k) (b :: buf)
  = unpack_fields Native off (repeat cB k) buf.
Proof.
  revert off. induction k as [|k IH]; intros off; simpl repeat; trivial.
  cbn [unpack_fields]. rewrite !align_native_B.
  change (S off + code_size cB)%nat with (S (off + code_size cB)).
  rewrite IH. reflexivity.
Qed.

Lemma unpack_fields_B (buf : bytes) :
  unpack_fields Native 0 (repeat cB (length buf)) buf = map byte_val buf.
Proof.
  induction buf as [|b buf IH]; trivial.
  simpl length. simpl repeat. cbn [unpack_fields].
  rewrite align_native_B. cbn [skipn code_size firstn Nat.add map].
  rewrite decode_B, unpack_fields_B_shift, IH. reflexivity.
Qed.

(** [struct.unpack(b"B"*n, buf)] wants exactly [n] bytes and returns
    their values. *)
Lemma unpack_B_times (n : nat) (buf : bytes) :
  unpack (native (repeat cB n)) buf
  = if len buf =? Z.of_nat n then inr (map byte_val buf) else inl StructError.
Proof.
  unfold unpack, calcsize, native. cbn [order codes].
  rewrite end_offset_B. cbn [Nat.add].
  destruct (len buf =? Z.of_nat n) eqn:E; trivial.
  apply Z.eqb_eq in E. unfold len in E. apply Nat2Z.inj in E. subst n.
  now rewrite unpack_fields_B.
Qed.

Lemma unpack_fields_nonempty (o : byte_order) (off : nat) (c : code)
    (cs : list code) (buf : bytes) :
  unpack_fields o off (c :: cs) buf <> [].
Proof. cbn [unpack_fields]. discriminate. Qed.

Lemma last_item_cons (x : Z) (l : list Z) :
  l <> [] -> last_item (x :: l) = last_item l.
Proof.
  intros Hl. unfold last_item. cbn [rev].
  destruct (rev l) as [|v r] eqn:E.
  - apply (f_equal (@rev Z)) in E. rewrite rev_involutive in E. contradiction.
  - reflexivity.
Qed.

Lemma end_offset_app (o : byte_order) (cs1 cs2 : list code) (off : nat) :
  end_offset o off (cs1 ++ cs2) = end_offset o (end_offset o off cs1) cs2.
Proof.
  revert off. induction cs1 as [|c cs1 IH]; intros off; cbn [app end_offset]; trivial.
Qed.

(** The last value [struct.unpack] returns is read from the last bytes
    the format covers. *)
Lemma unpack_fields_last (o : byte_order) (cs : list code) (c : code)
    (off : nat) (buf : bytes) :
  last_item (unpack_fields o off (cs ++ [c]) buf)
  = inr (decode o c (firstn (code_size c)
                       (skipn (end_offset o off (cs ++ [c]) - code_size c) buf))).
Proof.
  revert off. induction cs as [|c0 cs IH]; intros off.
  - cbn [app unpack_fields end_offset]. unfold last_item. cbn [rev app].
    replace (align o off (code_size c) + code_size c - code_size c)%nat
      with (align o off (code_size c)) by lia.
    reflexivity.
  - cbn [app]. change (unpack_fields o off (c0 :: cs ++ [c]) buf)
      with (decode o c0 (firstn (code_size c0) (skipn (align o off (code_size c0)) buf))
              :: unpack_fields o (align o off (code_size c0) + code_size c0) (cs ++ [c]) buf).
    rewrite last_item_cons.
    + rewrite IH. reflexivity.
    + destruct cs; apply unpack_fields_nonempty.
Qed.

Lemma end_offset_last_ge (o : byte_order) (cs : list code) (c : code) (off : nat) :
  (code_size c <= end_offset o off (cs ++ [c]))%nat.
Proof.
  rewrite end_offset_app. cbn [end_offset]. lia.
Qed.

(** On a buffer of the size of the format, [unpack(f, header)[-1]] is
    the name length as the specification reads it. *)
Lemma unpack_last_field (f : format) (packet : bytes) :
  codes f <> [] ->
  calcsize f <= len packet ->
  match unpack f (slice packet None (Some (calcsize f))) with
  | inr t => last_item t = inr (name_length f packet)
  | inl _ => False
  end.
Proof.
  intros Hcodes Hlen.
  assert (Hsize : 0 <= calcsize f) by (unfold calcsize; lia).
  unfold unpack. rewrite slice_len_prefix, Z.eqb_refl by lia.
  rewrite slice_prefix by lia. unfold name_length.
  destruct (rev (codes f)) as [|c r] eqn:E.
  { apply (f_equal (@rev code)) in E. rewrite rev_involutive in E. contradiction. }
  apply (f_equal (@rev code)) in E. rewrite rev_involutive in E. cbn [rev] in E.
  rewrite E, unpack_fields_last. do 2 f_equal.
  set (header := firstn (Z.to_nat (calcsize f)) packet).
  assert (Hh : length header = end_offset (order f) 0 (rev r ++ [c])).
  { unfold header. rewrite length_firstn. unfold calcsize, len in *.
    rewrite E in *. lia. }
  rewrite <- Hh. apply firstn_all2. rewrite length_skipn.
  pose proof (end_offset_last_ge (order f) (rev r) c 0). lia.
Qed.

Lemma in_range_B (v : Z) : 0 <= v < 256 -> in_range cB v = true.
Proof.
  intros Hv. unfold in_range. cbn [code_signed code_size].
  change (2 ^ (8 * Z.of_nat 1)) with 256.
  apply andb_true_iff. split; [apply Z.leb_le | apply Z.ltb_lt]; lia.
Qed.

Lemma in_range_i (v : Z) : - 2 ^ 31 <= v < 2 ^ 31 -> in_range ci v = true.
Proof.
  intros Hv. unfold in_range. cbn [code_signed code_size].
  change (2 ^ (8 * Z.of_nat 4) / 2) with (2 ^ 31).
  apply andb_true_iff. split; [apply Z.leb_le | apply Z.ltb_lt]; lia.
Qed.

(** [struct.pack("!BBHi", t, 0, 1, e)] is the set-encodings message of
    the specification. *)
Lemma pack_set_encodings (t e : Z) :
  0 <= t < 256 ->
  - 2 ^ 31 <= e < 2 ^ 31 ->
  pack (network [cB; cB; cH; ci]) [t; 0; 1; e] = inr (set_encodings_message t e).
Proof.
  intros Ht He. unfold pack, network. cbn [order codes pack_fields align].
  rewrite (in_range_B t Ht), (in_range_i e He).
  reflexivity.
Qed.

(** ** What a call leaves of the session *)

Lemma quiet_refl (s : session) : quiet s s.
Proof. repeat split. Qed.

Lemma quiet_trans (s1 s2 s3 : session) : quiet s1 s2 -> quiet s2 s3 -> quiet s1 s3.
Proof.
  unfold quiet. intros (Hp & Hs & Ha) (Hp' & Hs' & Ha').
  repeat split; congruence.
Qed.

Lemma refeed_all_zero (h : bytes -> M value) (buffers : list bytes) :
  (forall b s, In b buffers -> fst (h b s) = inr (PyInt 0) /\ quiet s (snd (h b s))) ->
  forall s,
    fst (refeed h buffers s) = repeat (inr (PyInt 0)) (length buffers)
    /\ quiet s (snd (refeed h buffers s)).
Proof.
  induction buffers as [|b rest IH]; intros Hall s.
  - split; [reflexivity | apply quiet_refl].
  - cbn [refeed].
    destruct (Hall b s (or_introl eq_refl)) as [Hr Hq].
    destruct (h b s) as [r s'] eqn:Eh. cbn [fst snd] in Hr, Hq.
    assert (Hrest : forall b0 s0, In b0 rest ->
              fst (h b0 s0) = inr (PyInt 0) /\ quiet s0 (snd (h b0 s0)))
      by (intros; apply Hall; now right).
    destruct (IH Hrest s') as [Hrs Hqs].
    destruct (refeed h rest s') as [rs s''] eqn:Er. cbn [fst snd] in *.
    split.
    + simpl. now rewrite Hr, Hrs.
    + eapply quiet_trans; eassumption.
Qed.

(** ** The security handshake *)

Section SecurityHandshake.

Variable RFBAuth_values : list Z.
Variable RFBAuth_NONE : Z.

Local Abbreviation parse := (_parse_security_handshake RFBAuth_values RFBAuth_NONE).
Local Abbreviation conv := (convert RFBAuth_values).
Local Abbreviation adv := (advertised RFBAuth_values).

Lemma convert_loop (vs : list Z) (acc : list security_type) :
  fold_left (convert_append RFBAuth_values) vs acc = acc ++ map conv vs.
Proof.
  revert acc. induction vs as [|v vs IH]; intros acc; simpl.
  - now rewrite app_nil_r.
  - rewrite IH. unfold convert_append, convert.
    destruct (RFBAuth RFBAuth_values v); now rewrite <- app_assoc.
Qed.

Lemma int_of_convert (v : Z) : int_of (conv v) = v.
Proof. unfold convert, RFBAuth. now destruct (existsb _ _). Qed.

Lemma convert_unknown (v : Z) : ~ In v RFBAuth_values -> conv v = Opaque v.
Proof.
  intros Hv. unfold convert, RFBAuth.
  destruct (existsb (Z.eqb v) RFBAuth_values) eqn:E; trivial.
  apply existsb_exists in E. destruct E as (x & Hx & Heq).
  apply Z.eqb_eq in Heq. subst x. contradiction.
Qed.

Lemma first_byte (b : byte) (rest : bytes) :
  unpack (native [cB]) (slice (b :: rest) None (Some 1)) = inr [byte_val b].
Proof.
  rewrite slice_prefix by lia. change (native [cB]) with (native (repeat cB 1)).
  now rewrite unpack_B_times.
Qed.

Lemma pack_B_zero : pack (native [cB]) [0] = inr [x00].
Proof. reflexivity. Qed.

Lemma no_first_byte :
  unpack (native [cB]) (slice (@nil byte) None (Some 1)) = inl StructError.
Proof. reflexivity. Qed.

Lemma type_bytes (b : byte) (rest : bytes) :
  unpack (native (repeat cB (Z.to_nat (byte_val b)))) (slice (b :: rest) (Some 1) None)
  = if len rest =? byte_val b then inr (map byte_val rest) else inl StructError.
Proof.
  rewrite slice_suffix by lia. change (skipn (Z.to_nat 1) (b :: rest)) with rest.
  rewrite unpack_B_times, Z2Nat.id by apply byte_val_range. reflexivity.
Qed.

Ltac step :=
  unfold _parse_security_handshake, _internal_error, bind, ret, lift, log,
    send, abort, set_packet_parser;
  cbn [fst snd packet_parser sent aborts logged].

Lemma handshake_empty (s : session) :
  parse [] s
  = (inl StructError,
     mkSession (packet_parser s) (sent s) (aborts s)
       (logged s ++ [Log_parse_security_handshake []])).
Proof. reflexivity. Qed.

Lemma handshake_zero_count (b : byte) (rest : bytes) (s : session) :
  byte_val b = 0 ->
  parse (b :: rest) s
  = (inr (PyInt 0),
     mkSession (packet_parser s) (sent s)
       (aborts s ++ [InternalError (b :: rest)
                       (Cannot_parse_security_handshake (b :: rest))])
       (logged s ++ [Log_parse_security_handshake (b :: rest)])).
Proof.
  intros Hn. step. rewrite first_byte. cbn [item nth_error].
  rewrite Hn. reflexivity.
Qed.

Lemma handshake_wrong_size (b : byte) (rest : bytes) (s : session) :
  byte_val b <> 0 ->
  len rest <> byte_val b ->
  parse (b :: rest) s
  = (inl StructError,
     mkSession (packet_parser s) (sent s) (aborts s)
       (logged s ++ [Log_parse_security_handshake (b :: rest)])).
Proof.
  intros Hn Hlen. step. rewrite first_byte. cbn [item nth_error].
  destruct (byte_val b =? 0) eqn:E; [apply Z.eqb_eq in E; contradiction|].
  rewrite type_bytes.
  destruct (len rest =? byte_val b) eqn:E'; [apply Z.eqb_eq in E'; contradiction|].
  reflexivity.
Qed.

Lemma handshake_exact (b t0 : byte) (more : bytes) (s : session) :
  len (t0 :: more) = byte_val b ->
  parse (b :: t0 :: more) s
  = let packet := b :: t0 :: more in
    let lg := logged s ++ [Log_parse_security_handshake packet]
                ++ [Log_security_types packet (adv (t0 :: more))] in
    if byte_val t0 =? RFBAuth_NONE
    then (inr (PyInt (1 + byte_val b)),
          mkSession AwaitingSecurityResult (sent s ++ [[x00]]) (aborts s) lg)
    else (inr (PyInt 0),
          mkSession (packet_parser s) (sent s)
            (aborts s ++ [InternalError packet
                            (Security_type_not_supported (conv (byte_val t0)))])
            lg).
Proof.
  intros Hlen. step. rewrite first_byte. cbn [item nth_error].
  destruct (byte_val b =? 0) eqn:E.
  { apply Z.eqb_eq in E. rewrite len_cons in Hlen.
    pose proof (len_nonneg more). lia. }
  rewrite type_bytes, Hlen, Z.eqb_refl, convert_loop.
  cbn [app map]. rewrite int_of_convert, pack_B_zero.
  destruct (byte_val t0 =? RFBAuth_NONE);
    cbn [negb packet_parser sent aborts logged];
    rewrite <- ?app_assoc; reflexivity.
Qed.

Lemma handshake_short (b : byte) (rest : bytes) :
  len (b :: rest) < 1 + byte_val b ->
  byte_val b <> 0 /\ len rest <> byte_val b.
Proof.
  rewrite len_cons. pose proof (len_nonneg rest). lia.
Qed.

(** C1 (the code departs from the claim).  When the buffer holds the
    count byte [n] and fewer than [n] type bytes, the handshake parser
    does not return 0: [struct.unpack(b"B"*n, packet[1:])] raises
    [struct.error].  Nothing is sent, no abort is signalled and the
    parser state stays, but the call ends in an exception. *)
Theorem C1_short_handshake_raises (b : byte) (rest : bytes) (s : session) :
  len (b :: rest) < 1 + byte_val b ->
  fst (parse (b :: rest) s) = inl StructError
  /\ fst (parse (b :: rest) s) <> inr (PyInt 0)
  /\ quiet s (snd (parse (b :: rest) s)).
Proof.
  intros Hshort. destruct (handshake_short b rest Hshort) as [Hn Hlen].
  rewrite (handshake_wrong_size b rest s Hn Hlen). cbn [fst snd].
  repeat split. discriminate.
Qed.

(** C2 (the code departs from the claim).  With exactly [1+n] bytes and
    no-auth first, the parser sends the one selector byte 0, binds
    [_parse_security_result] and returns [1+n]; with any byte more in
    the buffer the same call raises [struct.error] before anything is
    sent or the state is advanced, so bytes of the next message are
    faulted on rather than left for the next state. *)
Theorem C2_extra_bytes_raise (b t0 : byte) (more : bytes) (s : session) :
  1 <= byte_val b ->
  byte_val t0 = RFBAuth_NONE ->
  (len (b :: t0 :: more) = 1 + byte_val b ->
     fst (parse (b :: t0 :: more) s) = inr (PyInt (1 + byte_val b))
     /\ packet_parser (snd (parse (b :: t0 :: more) s)) = AwaitingSecurityResult
     /\ sent (snd (parse (b :: t0 :: more) s)) = sent s ++ [[x00]]
     /\ aborts (snd (parse (b :: t0 :: more) s)) = aborts s)
  /\ (1 + byte_val b < len (b :: t0 :: more) ->
     fst (parse (b :: t0 :: more) s) = inl StructError
     /\ quiet s (snd (parse (b :: t0 :: more) s))).
Proof.
  intros Hn Hnone. split; intros Hlen.
  - rewrite (len_cons b) in Hlen.
    assert (Hexact : len (t0 :: more) = byte_val b) by lia.
    rewrite (handshake_exact b t0 more s Hexact). cbv zeta.
    apply Z.eqb_eq in Hnone. rewrite Hnone. cbn [fst snd packet_parser sent aborts].
    repeat split.
  - rewrite (len_cons b) in Hlen.
    rewrite (handshake_wrong_size b (t0 :: more) s) by lia.
    cbn [fst snd]. repeat split.
Qed.

Lemma not_self_append {A : Type} (l : list A) (x : A) : l <> l ++ [x].
Proof.
  intros H. apply (f_equal (@length A)) in H.
  rewrite length_app in H. simpl in H. lia.
Qed.

(** With the count [n] and exactly the [n] advertised types, the
    parser keeps every code as an integer of the same value, a code
    outside [RFBAuth] as the plain integer itself, and it signals an
    abort, exactly one and without a send, if and only if the first
    type is not no-auth. *)
Lemma exact_list_abort_iff (b t0 : byte) (more : bytes) (s : session) :
  len (t0 :: more) = byte_val b ->
  let packet := b :: t0 :: more in
  let s' := snd (parse packet s) in
  In (Log_security_types packet (adv (t0 :: more))) (logged s')
  /\ map int_of (adv (t0 :: more)) = map byte_val (t0 :: more)
  /\ (forall v, In v (map byte_val (t0 :: more)) -> ~ In v RFBAuth_values ->
        In (Opaque v) (adv (t0 :: more)))
  /\ (byte_val t0 <> RFBAuth_NONE <->
        (exists c, aborts s' = aborts s ++ [c]) /\ sent s' = sent s)
  /\ (byte_val t0 = RFBAuth_NONE -> aborts s' = aborts s).
Proof.
  intros Hlen packet s'. subst packet s'.
  rewrite (handshake_exact b t0 more s Hlen). cbv zeta.
  split; [|split; [|split; [|split]]].
  - destruct (byte_val t0 =? RFBAuth_NONE); cbn [snd logged];
      rewrite !in_app_iff; right; right; now left.
  - unfold advertised. rewrite map_map.
    rewrite (map_ext _ (fun v => v)) by (intros v; apply int_of_convert).
    apply map_id.
  - intros v Hv Hunknown. unfold advertised.
    rewrite <- (convert_unknown v Hunknown). now apply in_map.
  - destruct (byte_val t0 =? RFBAuth_NONE) eqn:E; cbn [snd aborts sent].
    + apply Z.eqb_eq in E. split; [contradiction|].
      intros [[c Hc] Hsent]. exfalso. exact (not_self_append _ _ Hc).
    + apply Z.eqb_neq in E. split; [|trivial].
      intros _. split; [eexists; reflexivity | reflexivity].
  - intros Hnone. apply Z.eqb_eq in Hnone. rewrite Hnone. reflexivity.
Qed.

(** C5 (the code departs from the claim).  When the first advertised
    type is not no-auth, the parser aborts, once and without a send,
    only if the buffer ends with the list: the codes are then kept as
    integers, unknown ones as they are.  When the complete list is
    followed by any further byte, [struct.unpack(b"B"*n, packet[1:])]
    raises [struct.error] and no abort is signalled at all. *)
Theorem C5_no_abort_behind_complete_list (b t0 : byte) (more : bytes) (s : session) :
  1 <= byte_val b ->
  byte_val t0 <> RFBAuth_NONE ->
  (len (t0 :: more) = byte_val b ->
     fst (parse (b :: t0 :: more) s) = inr (PyInt 0)
     /\ aborts (snd (parse (b :: t0 :: more) s))
        = aborts s ++ [InternalError (b :: t0 :: more)
                         (Security_type_not_supported (conv (byte_val t0)))]
     /\ sent (snd (parse (b :: t0 :: more) s)) = sent s
     /\ map int_of (adv (t0 :: more)) = map byte_val (t0 :: more))
  /\ (byte_val b < len (t0 :: more) ->
     fst (parse (b :: t0 :: more) s) = inl StructError
     /\ aborts (snd (parse (b :: t0 :: more) s)) = aborts s
     /\ quiet s (snd (parse (b :: t0 :: more) s))).
Proof.
  intros Hn Hnone. split; intros Hlen.
  - destruct (exact_list_abort_iff b t0 more s Hlen) as (_ & Hcodes & _).
    rewrite (handshake_exact b t0 more s Hlen). cbv zeta.
    apply Z.eqb_neq in Hnone. rewrite Hnone. cbn [fst snd aborts sent].
    repeat split. exact Hcodes.
  - rewrite (handshake_wrong_size b (t0 :: more) s) by lia.
    cbn [fst snd aborts]. repeat split.
Qed.

End SecurityHandshake.

(** ** The security result *)

Section SecurityResult.

Ltac step :=
  unfold _parse_security_result, _internal_error, bind, ret, lift, log,
    send, abort, set_packet_parser;
  cbn [fst snd packet_parser sent aborts logged].

Lemma four_bytes (packet : bytes) :
  4 <= len packet ->
  exists a b c d rest, packet = a :: b :: c :: d :: rest.
Proof.
  destruct packet as [|a [|b [|c [|d rest]]]]; unfold len; simpl length;
    try lia.
  intros _. now exists a, b, c, d, rest.
Qed.

Lemma unpack_status (packet : bytes) :
  4 <= len packet ->
  unpack (native [cI]) (slice packet None (Some 4)) = inr [status_code packet].
Proof.
  intros Hlen. rewrite slice_prefix by lia.
  destruct (four_bytes packet Hlen) as (a & b & c & d & rest & ->).
  reflexivity.
Qed.

(** Whether the status is zero does not depend on the byte order. *)
Lemma status_zero_iff (packet : bytes) :
  4 <= len packet ->
  (status_code packet = 0 <-> firstn 4 packet = [x00; x00; x00; x00]).
Proof.
  intros Hlen. destruct (four_bytes packet Hlen) as (a & b & c & d & rest & ->).
  unfold status_code. cbn [firstn]. split.
  - unfold decode, field_bytes, be_value. cbn [rev app fold_left code_signed andb].
    pose proof (byte_val_range a). pose proof (byte_val_range b).
    pose proof (byte_val_range c). pose proof (byte_val_range d).
    intros Hzero.
    assert (byte_val a = 0 /\ byte_val b = 0 /\ byte_val c = 0 /\ byte_val d = 0)
      as (Ha & Hb & Hc & Hd) by lia.
    apply byte_val_zero in Ha, Hb, Hc, Hd. now subst.
  - intros [= -> -> -> ->]. reflexivity.
Qed.

Lemma result_short (packet : bytes) (s : session) :
  len packet < 4 ->
  _parse_security_result packet s = (inr (PyInt 0), s).
Proof.
  intros Hlen. step. apply Z.ltb_lt in Hlen. now rewrite Hlen.
Qed.

Lemma result_denied (packet : bytes) (s : session) :
  4 <= len packet ->
  status_code packet <> 0 ->
  _parse_security_result packet s
  = (inr (PyInt 0),
     mkSession (packet_parser s) (sent s)
       (aborts s ++ [InternalError packet (Authentication_denied (status_code packet))])
       (logged s)).
Proof.
  intros Hlen Hr. step.
  destruct (len packet <? 4) eqn:E; [apply Z.ltb_lt in E; lia|].
  rewrite unpack_status by assumption. cbn [item nth_error].
  apply Z.eqb_neq in Hr. rewrite Hr. reflexivity.
Qed.

Lemma result_granted (packet : bytes) (s : session) :
  4 <= len packet ->
  status_code packet = 0 ->
  _parse_security_result packet s
  = (inr (PyInt 4),
     mkSession AwaitingClientInit (sent s ++ [[x00]]) (aborts s)
       (logged s ++ [Log_parse_security_result_success packet])).
Proof.
  intros Hlen Hr. step.
  destruct (len packet <? 4) eqn:E; [apply Z.ltb_lt in E; lia|].
  rewrite unpack_status by assumption. cbn [item nth_error].
  rewrite Hr. reflexivity.
Qed.

(** C4.  In [_parse_security_result]: fewer than 4 bytes give 0 and
    leave the session as it was; a non-zero status calls the abort
    collaborator once (authentication denied) and sends nothing; a zero
    status sends exactly one message, the single byte 0 (share = false),
    binds [_parse_client_init] and returns 4. *)
Theorem C4_security_result (packet : bytes) (s : session) :
  (len packet < 4 ->
     _parse_security_result packet s = (inr (PyInt 0), s))
  /\ (4 <= len packet -> status_code packet <> 0 ->
     let s' := snd (_parse_security_result packet s) in
     fst (_parse_security_result packet s) = inr (PyInt 0)
     /\ aborts s' = aborts s ++ [InternalError packet
                                (Authentication_denied (status_code packet))]
     /\ sent s' = sent s
     /\ packet_parser s' = packet_parser s)
  /\ (4 <= len packet -> status_code packet = 0 ->
     let s' := snd (_parse_security_result packet s) in
     fst (_parse_security_result packet s) = inr (PyInt 4)
     /\ sent s' = sent s ++ [[x00]]
     /\ packet_parser s' = AwaitingClientInit
     /\ aborts s' = aborts s).
Proof.
  split; [|split].
  - apply result_short.
  - intros Hlen Hr. rewrite (result_denied packet s Hlen Hr). now repeat split.
  - intros Hlen Hr. rewrite (result_granted packet s Hlen Hr). now repeat split.
Qed.

End SecurityResult.

(** ** The client init *)

Section ClientInit.

Variable SetEncodings : Z.
Variable RAW : Z.
Variable CLIENT_INIT : format.
Variable bytestostr : bytes -> String.string.

(** The format has a field, and the two constants fit the fields
    [struct.pack] writes them to. *)
Hypothesis CLIENT_INIT_fields : codes CLIENT_INIT <> [].
Hypothesis SetEncodings_byte : 0 <= SetEncodings < 256.
Hypothesis RAW_int32 : - 2 ^ 31 <= RAW < 2 ^ 31.

Local Abbreviation parse := (_parse_client_init SetEncodings RAW CLIENT_INIT bytestostr).
Local Abbreviation ci_size := (calcsize CLIENT_INIT).
Local Abbreviation name_size := (name_length CLIENT_INIT).

Ltac step :=
  unfold _parse_client_init, send_set_encodings, bind, ret, lift, log,
    send, abort, set_packet_parser;
  cbn [fst snd packet_parser sent aborts logged].

Lemma client_init_incomplete (packet : bytes) (s : session) :
  incomplete CLIENT_INIT packet ->
  parse packet s
  = (inr (PyInt 0),
     mkSession (packet_parser s) (sent s) (aborts s)
       (logged s ++ [Log_parse_client_init packet])).
Proof.
  intros Hinc. step.
  destruct (len packet <? ci_size) eqn:E; trivial.
  apply Z.ltb_ge in E.
  pose proof (unpack_last_field CLIENT_INIT packet CLIENT_INIT_fields E) as Hlast.
  destruct (unpack CLIENT_INIT (slice packet None (Some ci_size))) as [e|t];
    [contradiction|].
  rewrite Hlast.
  destruct Hinc as [Hinc|Hinc]; [lia|].
  apply Z.ltb_lt in Hinc. now rewrite Hinc.
Qed.

Lemma client_init_complete (packet : bytes) (s : session) :
  ci_size <= len packet ->
  ci_size + name_size packet <= len packet ->
  parse packet s
  = (inr (PyInt (ci_size + name_size packet)),
     mkSession SteadyStateUpdates
       (sent s ++ [set_encodings_message SetEncodings RAW])
       (aborts s)
       (logged s ++ [Log_parse_client_init packet]
          ++ [Log_server_session
                (bytestostr (slice packet (Some ci_size)
                               (Some (ci_size + name_size packet))))])).
Proof.
  intros Hhdr Hname. step.
  destruct (len packet <? ci_size) eqn:E; [apply Z.ltb_lt in E; lia|].
  pose proof (unpack_last_field CLIENT_INIT packet CLIENT_INIT_fields Hhdr) as Hlast.
  destruct (unpack CLIENT_INIT (slice packet None (Some ci_size))) as [e|t];
    [contradiction|].
  rewrite Hlast.
  destruct (len packet <? ci_size + name_size packet) eqn:E';
    [apply Z.ltb_lt in E'; lia|].
  rewrite (pack_set_encodings _ _ SetEncodings_byte RAW_int32).
  cbn [packet_parser sent aborts logged]. rewrite <- app_assoc. reflexivity.
Qed.

(** A cut of a message before the end of its name is incomplete. *)
Lemma cut_incomplete (msg : bytes) (n : nat) :
  Z.of_nat n < ci_size + name_size msg ->
  (n < length msg)%nat ->
  incomplete CLIENT_INIT (firstn n msg).
Proof.
  intros Hcut Hn. unfold incomplete.
  assert (Hlen : len (firstn n msg) = Z.of_nat n)
    by (unfold len; rewrite length_firstn; lia).
  rewrite Hlen.
  destruct (Z.lt_ge_cases (Z.of_nat n) ci_size) as [Hlt|Hge]; [now left|right].
  replace (name_size (firstn n msg)) with (name_size msg); trivial.
  unfold name_length. rewrite firstn_firstn.
  replace (Init.Nat.min (Z.to_nat ci_size) n) with (Z.to_nat ci_size) by lia.
  reflexivity.
Qed.

Lemma client_init_waits (buffers : list bytes) (s : session) :
  (forall b, In b buffers -> incomplete CLIENT_INIT b) ->
  fst (refeed parse buffers s) = repeat (inr (PyInt 0)) (length buffers)
  /\ quiet s (snd (refeed parse buffers s)).
Proof.
  intros Hall. apply refeed_all_zero. intros b s0 Hb.
  rewrite (client_init_incomplete b s0 (Hall b Hb)). cbn [fst snd].
  repeat split.
Qed.

(** C6.  [_parse_client_init] returns 0 and leaves the session as it was
    while the buffer lacks the header or the name, however many calls
    are made on however many cuts of the message; on a buffer that
    holds both it logs the decoded name, sends the set-encodings
    message (type byte, padding byte, big-endian 16-bit count 1,
    big-endian 32-bit raw code), binds [_parse_rfb_packet] and returns
    [ci_size + name_size].  The session after the cuts and the message
    is the one a single call on the message gives. *)
Theorem C6_client_init (msg : bytes) (cuts : list nat) (s : session) :
  ci_size <= len msg ->
  ci_size + name_size msg <= len msg ->
  (forall n, In n cuts -> Z.of_nat n < ci_size + name_size msg) ->
  let early := refeed parse (map (fun n => firstn n msg) cuts) s in
  let r := parse msg (snd early) in
  fst early = repeat (inr (PyInt 0)) (length cuts)
  /\ quiet s (snd early)
  /\ fst r = inr (PyInt (ci_size + name_size msg))
  /\ fst r = fst (parse msg s)
  /\ packet_parser (snd r) = SteadyStateUpdates
  /\ sent (snd r) = sent s ++ [set_encodings_message SetEncodings RAW]
  /\ set_encodings_message SetEncodings RAW
     = [byte_of_Z SetEncodings; x00; x00; x01] ++ be_bytes 4 RAW
  /\ aborts (snd r) = aborts s
  /\ In (Log_server_session
           (bytestostr (slice msg (Some ci_size) (Some (ci_size + name_size msg)))))
        (logged (snd r))
  /\ (0 <= name_size msg ->
      slice msg (Some ci_size) (Some (ci_size + name_size msg))
      = firstn (Z.to_nat (name_size msg)) (skipn (Z.to_nat ci_size) msg)).
Proof.
  intros Hhdr Hname Hcuts early r.
  assert (Hsize : 0 <= ci_size) by (unfold calcsize; lia).
  destruct (client_init_waits (map (fun n => firstn n msg) cuts) s) as [Hzero Hquiet].
  { intros b Hb. apply in_map_iff in Hb. destruct Hb as (n & <- & Hn).
    specialize (Hcuts n Hn). apply cut_incomplete; trivial.
    unfold len in Hname. lia. }
  rewrite length_map in Hzero. fold early in Hzero, Hquiet.
  destruct Hquiet as (Hp & Hs & Ha).
  subst r. rewrite !(client_init_complete msg _ Hhdr Hname).
  cbn [fst snd packet_parser sent aborts logged]. rewrite Hs, Ha.
  repeat split; trivial.
  - rewrite !in_app_iff. right. right. now left.
  - intros Hpos. rewrite slice_middle by lia. do 2 f_equal. lia.
Qed.

End ClientInit.

(** ** The framebuffer update *)

Lemma be_value_snoc (bs : bytes) (b : byte) :
  be_value (bs ++ [b]) = be_value bs * 256 + byte_val b.
Proof. unfold be_value. now rewrite fold_left_app. Qed.

Lemma be_value_bound (bs : bytes) :
  0 <= be_value bs < 256 ^ Z.of_nat (length bs).
Proof.
  induction bs as [|b bs IH] using rev_ind.
  - cbn. lia.
  - rewrite be_value_snoc, length_app. cbn [length].
    replace (Z.of_nat (length bs + 1)) with (Z.succ (Z.of_nat (length bs))) by lia.
    rewrite Z.pow_succ_r by lia. pose proof (byte_val_range b). nia.
Qed.

Lemma uint16_at_range (off : nat) (packet : bytes) :
  0 <= uint16_at off packet <= 65535.
Proof.
  unfold uint16_at.
  pose proof (be_value_bound (firstn 2 (skipn off packet))) as Hb.
  assert (Hlen : (length (firstn 2 (skipn off packet)) <= 2)%nat)
    by (rewrite length_firstn; lia).
  assert (256 ^ Z.of_nat (length (firstn 2 (skipn off packet))) <= 256 ^ 2)
    by (apply Z.pow_le_mono_r; lia).
  lia.
Qed.

Lemma payload_length_range (packet : bytes) :
  0 <= payload_length packet <= max_payload.
Proof.
  unfold payload_length, max_payload, rect_width, rect_height.
  pose proof (uint16_at_range 8 packet). pose proof (uint16_at_range 10 packet).
  nia.
Qed.

(** A field of a slice is the field of the buffer at the shifted
    offset. *)
Lemma field_of_window (a b c d : nat) (l : bytes) :
  (a + b <= c)%nat ->
  firstn a (skipn b (firstn c (skipn d l))) = firstn a (skipn (d + b) l).
Proof.
  intros Hfit. rewrite skipn_firstn_comm, firstn_firstn, skipn_skipn.
  replace (Init.Nat.min a (c - b)) with a by lia.
  do 2 f_equal. lia.
Qed.

Lemma decode_H (bs : bytes) : decode Network cH bs = be_value bs.
Proof. reflexivity. Qed.

Section FramebufferUpdate.

Variable RAW : Z.

Local Abbreviation parse := (_parse_rfb_packet RAW).

Ltac step :=
  unfold _parse_rfb_packet, invalid, bind, ret, lift, log,
    send, abort, set_packet_parser;
  change (calcsize (network [cB; cB; cH; cH; cH; cH; cH; ci])) with 16;
  change (pack (network [cB; cB; cH]) [0; 0; 1]) with (@inr exn bytes rect_marker);
  cbn [fst snd packet_parser sent aborts logged].

Lemma rect_fields (packet : bytes) :
  16 < len packet ->
  unpack (network [cH; cH; cH; cH; ci]) (slice packet (Some 4) (Some 16))
  = inr [rect_x packet; rect_y packet; rect_width packet; rect_height packet;
         rect_encoding packet].
Proof.
  intros Hlen. rewrite slice_middle by lia.
  change (Z.to_nat (16 - 4)) with 12%nat. change (Z.to_nat 4) with 4%nat.
  unfold unpack.
  assert (Hwin : len (firstn 12 (skipn 4 packet)) = 12).
  { unfold len in *. rewrite length_firstn, length_skipn. lia. }
  rewrite Hwin. change (calcsize (network [cH; cH; cH; cH; ci])) with 12.
  rewrite Z.eqb_refl. unfold network.
  cbn [order codes unpack_fields align code_size Nat.add].
  rewrite !decode_H.
  unfold rect_x, rect_y, rect_width, rect_height, rect_encoding, uint16_at.
  rewrite !field_of_window by lia. reflexivity.
Qed.

Lemma rect_short (packet : bytes) (s : session) :
  len packet <= 16 ->
  parse packet s
  = (inr (PyInt 0),
     mkSession (packet_parser s) (sent s) (aborts s)
       (logged s ++ [Log_parse_rfb_packet packet])).
Proof.
  intros Hlen. step. apply Z.leb_le in Hlen. now rewrite Hlen.
Qed.

Lemma rect_bad_marker (packet : bytes) (s : session) :
  16 < len packet ->
  firstn 4 packet <> rect_marker ->
  parse packet s
  = (inr (PyInt 0),
     mkSession (packet_parser s) (sent s)
       (aborts s ++ [Invalid Unknown_packet packet])
       (logged s ++ [Log_parse_rfb_packet packet])).
Proof.
  intros Hlen Hmark. step.
  destruct (len packet <=? 16) eqn:E; [apply Z.leb_le in E; lia|].
  rewrite slice_prefix by lia. change (Z.to_nat 4) with 4%nat.
  destruct (bytes_eqb (firstn 4 packet) rect_marker) eqn:Em.
  - apply bytes_eqb_eq in Em. contradiction.
  - reflexivity.
Qed.

Lemma rect_marker_ok (packet : bytes) :
  firstn 4 packet = rect_marker ->
  bytes_eqb (slice packet None (Some 4)) rect_marker = true.
Proof.
  intros Hmark. rewrite slice_prefix by lia. now apply bytes_eqb_eq.
Qed.

Lemma rect_bad_encoding (packet : bytes) (s : session) :
  16 < len packet ->
  firstn 4 packet = rect_marker ->
  rect_encoding packet <> RAW ->
  parse packet s
  = (inr PyNone,
     mkSession (packet_parser s) (sent s)
       (aborts s ++ [Invalid (Invalid_encoding (rect_encoding packet)) packet])
       (logged s ++ [Log_parse_rfb_packet packet])).
Proof.
  intros Hlen Hmark Henc. step.
  destruct (len packet <=? 16) eqn:E; [apply Z.leb_le in E; lia|].
  rewrite (rect_marker_ok packet Hmark), (rect_fields packet Hlen). cbn [negb].
  apply Z.eqb_neq in Henc. rewrite Henc. reflexivity.
Qed.

Lemma rect_raw (packet : bytes) (s : session) :
  raw_rectangle RAW packet ->
  parse packet s
  = (inr (PyInt (if len packet <? 16 + payload_length packet then 0
                 else 16 + payload_length packet)),
     mkSession (packet_parser s) (sent s) (aborts s)
       (logged s ++ [Log_parse_rfb_packet packet]
          ++ [Log_screen_update (rect_x packet) (rect_y packet)
                (rect_width packet) (rect_height packet)])).
Proof.
  intros (Hlen & Hmark & Henc). step.
  destruct (len packet <=? 16) eqn:E; [apply Z.leb_le in E; lia|].
  rewrite (rect_marker_ok packet Hmark), (rect_fields packet Hlen). cbn [negb].
  apply Z.eqb_eq in Henc. rewrite Henc. cbn [negb].
  fold (payload_length packet).
  destruct (len packet <? 16 + payload_length packet);
    cbn [logged]; rewrite <- app_assoc; reflexivity.
Qed.

(** C3 (as amended).  On a buffer that opens with a raw rectangle
    header (the marker, the raw encoding) the parser computes
    [16 + w*h*4] in unbounded integers, so the threshold is the exact
    product of the two 16-bit fields and never wraps; it is compared
    with the buffer length without any other bound: the parser returns
    0 while at most the 16 header bytes, or fewer than [16 + w*h*4]
    bytes, are buffered, and [16 + w*h*4] once more than 16 and at
    least that many bytes are there; it waits for every payload length
    up to [max_payload] and never rejects a rectangle for its size. *)
Theorem C3_threshold_exact_unbounded (packet : bytes) (s : session) :
  firstn 4 packet = rect_marker ->
  rect_encoding packet = RAW ->
  0 <= rect_width packet <= 65535
  /\ 0 <= rect_height packet <= 65535
  /\ 0 <= payload_length packet <= max_payload
  /\ payload_length packet = rect_width packet * rect_height packet * 4
  /\ (len packet <= 16 \/ len packet < 16 + payload_length packet ->
      fst (parse packet s) = inr (PyInt 0))
  /\ (16 < len packet -> 16 + payload_length packet <= len packet ->
      fst (parse packet s) = inr (PyInt (16 + payload_length packet)))
  /\ quiet s (snd (parse packet s)).
Proof.
  intros Hmark Henc.
  split; [apply uint16_at_range|]. split; [apply uint16_at_range|].
  split; [apply payload_length_range|]. split; [reflexivity|].
  destruct (Z_le_gt_dec (len packet) 16) as [Hshort|Hlong].
  - rewrite (rect_short packet s Hshort). cbn [fst snd].
    split; [reflexivity|]. split; [lia|]. repeat split.
  - assert (Hlen : 16 < len packet) by lia.
    rewrite (rect_raw packet s (conj Hlen (conj Hmark Henc))). cbn [fst snd].
    split; [|split].
    + intros [Hle|Hlt]; [lia|]. apply Z.ltb_lt in Hlt. now rewrite Hlt.
    + intros _ Hge. apply Z.ltb_ge in Hge. now rewrite Hge.
    + repeat split.
Qed.

(** C7.  When the parser reads a rectangle header (more than 16 bytes,
    the marker in place) whose encoding is not raw, it calls [invalid]
    once, sends nothing, keeps its state and returns [None], so no
    count of consumed bytes at all; the other branches that do not
    consume (a buffer of at most 16 bytes, a wrong marker, a payload
    not yet complete) return the integer 0. *)
Theorem C7_non_raw_encoding_returns_none (packet : bytes) (s : session) :
  (16 < len packet -> firstn 4 packet = rect_marker -> rect_encoding packet <> RAW ->
     fst (parse packet s) = inr PyNone
     /\ (forall n, fst (parse packet s) <> inr (PyInt n))
     /\ aborts (snd (parse packet s))
        = aborts s ++ [Invalid (Invalid_encoding (rect_encoding packet)) packet]
     /\ sent (snd (parse packet s)) = sent s
     /\ packet_parser (snd (parse packet s)) = packet_parser s)
  /\ (len packet <= 16 -> fst (parse packet s) = inr (PyInt 0))
  /\ (16 < len packet -> firstn 4 packet <> rect_marker ->
     fst (parse packet s) = inr (PyInt 0))
  /\ (raw_rectangle RAW packet -> len packet < 16 + payload_length packet ->
     fst (parse packet s) = inr (PyInt 0)).
Proof.
  split; [|split; [|split]].
  - intros Hlen Hmark Henc. rewrite (rect_bad_encoding packet s Hlen Hmark Henc).
    cbn [fst snd aborts sent packet_parser]. repeat split. discriminate.
  - intros Hlen. now rewrite (rect_short packet s Hlen).
  - intros Hlen Hmark. now rewrite (rect_bad_marker packet s Hlen Hmark).
  - intros Hraw Hlt. rewrite (rect_raw packet s Hraw). cbn [fst].
    apply Z.ltb_lt in Hlt. now rewrite Hlt.
Qed.

(** C9.  On a buffer of exactly 16 bytes the parser returns 0 whatever
    the bytes are, and only logs; so a rectangle of zero area, complete
    in those 16 bytes ([16 + payload_length] is the buffer length), is
    answered with 0 however many times the same buffer is fed. *)
Theorem C9_header_only_buffer_waits (packet : bytes) (times : nat) (s : session) :
  len packet = 16 ->
  parse packet s
  = (inr (PyInt 0),
     mkSession (packet_parser s) (sent s) (aborts s)
       (logged s ++ [Log_parse_rfb_packet packet]))
  /\ fst (refeed parse (repeat packet times) s) = repeat (inr (PyInt 0)) times
  /\ quiet s (snd (refeed parse (repeat packet times) s))
  /\ (rect_width packet * rect_height packet = 0 ->
      len packet = 16 + payload_length packet).
Proof.
  intros Hlen. split; [apply rect_short; lia|].
  destruct (refeed_all_zero parse (repeat packet times)) with (s := s) as [Hz Hq].
  { intros b s0 Hb. apply repeat_spec in Hb. subst b.
    rewrite (rect_short packet s0) by lia. cbn [fst snd]. repeat split. }
  rewrite repeat_length in Hz. split; [exact Hz|]. split; [exact Hq|].
  intros Harea. unfold payload_length. rewrite Harea. lia.
Qed.

End FramebufferUpdate.

(** C3 (as stated, refuted).  Rectangle dimensions from the wire do make
    the parser wait for any payload the header can express: on the
    header of a 65535 by 65535 raw rectangle followed by one byte the
    parser answers 0 without an abort, that is it waits for the
    remaining 17179344899 payload bytes; so no cap below the largest
    expressible payload length is enforced. *)
Lemma C3_no_cap_counterexample :
  raw_rectangle Rfb.RAW Rfb.largest_rectangle
  /\ payload_length Rfb.largest_rectangle = 17179344900
  /\ Rfb.parse_rfb_packet Rfb.largest_rectangle (Rfb.fresh SteadyStateUpdates)
     = (inr (PyInt 0),
        mkSession SteadyStateUpdates [] []
          [Log_parse_rfb_packet Rfb.largest_rectangle;
           Log_screen_update 0 0 65535 65535])
  /\ ~ (exists cap : Z, cap < max_payload /\ payload_capped Rfb.RAW cap).
Proof.
  assert (Hraw : raw_rectangle Rfb.RAW Rfb.largest_rectangle) by (repeat split).
  split; [exact Hraw|]. split; [reflexivity|]. split; [reflexivity|].
  intros (cap & Hcap & Hcapped).
  apply (Hcapped Rfb.largest_rectangle (Rfb.fresh SteadyStateUpdates) Hraw Hcap).
  split; reflexivity.
Qed.

(** ** Fatal paths *)

Section FatalPaths.

Variable RFBAuth_values : list Z.
Variable RFBAuth_NONE : Z.
Variable SetEncodings : Z.
Variable RAW : Z.
Variable CLIENT_INIT : format.
Variable bytestostr : bytes -> String.string.

Local Abbreviation handshake := (_parse_security_handshake RFBAuth_values RFBAuth_NONE).
Local Abbreviation client_init :=
  (_parse_client_init SetEncodings RAW CLIENT_INIT bytestostr).
Local Abbreviation update := (_parse_rfb_packet RAW).
Local Abbreviation current :=
  (feed RFBAuth_values RFBAuth_NONE SetEncodings RAW CLIENT_INIT bytestostr).

Lemma fatal_intro (p : ParseState) (snt : list bytes) (abs : list abort_call)
    (c : abort_call) (lg : list log_record) (s : session) :
  p = packet_parser s -> snt = sent s -> abs = aborts s ->
  fatal s (mkSession p snt (abs ++ [c]) lg).
Proof.
  intros -> -> ->. split; [now exists c | split; reflexivity].
Qed.

Create HintDb fatal_paths.
#[local] Hint Resolve fatal_intro : fatal_paths.

(** Each method either leaves the abort calls as they were or ends on
    a fatal path. *)
Lemma handshake_aborts (packet : bytes) (s : session) :
  aborts (snd (handshake packet s)) = aborts s \/ fatal s (snd (handshake packet s)).
Proof.
  destruct packet as [|b rest]; [now left|].
  destruct (Z.eq_dec (byte_val b) 0) as [Hz|Hnz].
  { rewrite (handshake_zero_count _ _ b rest s Hz). right. cbn [snd].
    auto with fatal_paths. }
  destruct (Z.eq_dec (len rest) (byte_val b)) as [Hlen|Hlen].
  - destruct rest as [|t0 more].
    { unfold len in Hlen. simpl in Hlen. congruence. }
    rewrite (handshake_exact _ _ b t0 more s Hlen). cbv zeta.
    destruct (byte_val t0 =? RFBAuth_NONE); cbn [snd aborts];
      [now left | right; auto with fatal_paths].
  - rewrite (handshake_wrong_size _ _ b rest s Hnz Hlen). now left.
Qed.

Lemma result_aborts (packet : bytes) (s : session) :
  aborts (snd (_parse_security_result packet s)) = aborts s
  \/ fatal s (snd (_parse_security_result packet s)).
Proof.
  destruct (Z.lt_ge_cases (len packet) 4) as [Hlt|Hge].
  { rewrite (result_short packet s Hlt). now left. }
  destruct (Z.eq_dec (status_code packet) 0) as [Hz|Hnz].
  - rewrite (result_granted packet s Hge Hz). now left.
  - rewrite (result_denied packet s Hge Hnz). right. cbn [snd].
    auto with fatal_paths.
Qed.

Lemma client_init_aborts (packet : bytes) (s : session) :
  aborts (snd (client_init packet s)) = aborts s.
Proof.
  unfold _parse_client_init, send_set_encodings, bind, ret, lift, log,
    send, set_packet_parser.
  cbn [fst snd packet_parser sent aborts logged].
  repeat match goal with
         | |- context [if ?c then _ else _] => destruct c
         | |- context [match ?x with inl _ => _ | inr _ => _ end] => destruct x
         end; reflexivity.
Qed.

Lemma update_aborts (packet : bytes) (s : session) :
  aborts (snd (update packet s)) = aborts s \/ fatal s (snd (update packet s)).
Proof.
  destruct (Z.le_gt_cases (len packet) 16) as [Hle|Hgt].
  { rewrite (rect_short RAW packet s Hle). now left. }
  assert (Hlen : 16 < len packet) by lia.
  destruct (list_eq_dec Byte.byte_eq_dec (firstn 4 packet) rect_marker) as [Hm|Hm].
  - destruct (Z.eq_dec (rect_encoding packet) RAW) as [He|He].
    + rewrite (rect_raw RAW packet s (conj Hlen (conj Hm He))). now left.
    + rewrite (rect_bad_encoding RAW packet s Hlen Hm He). right. cbn [snd].
      auto with fatal_paths.
  - rewrite (rect_bad_marker RAW packet s Hlen Hm). right. cbn [snd].
    auto with fatal_paths.
Qed.

(** C10.  Each of the five fatal paths (a zero count, an unsupported
    first security type, a non-zero authentication status, a wrong
    marker in an update header, an encoding that is not raw) calls the
    abort collaborator once, leaves [_packet_parser] bound as it was and
    sends nothing; and in whatever state, a call of the current parser
    that signals an abort has done exactly that. *)
Theorem C10_fatal_paths_keep_state (packet : bytes) (s : session) :
  (forall b rest, packet = b :: rest -> byte_val b = 0 ->
     fatal s (snd (handshake packet s)))
  /\ (forall b t0 more, packet = b :: t0 :: more ->
        len (t0 :: more) = byte_val b -> byte_val t0 <> RFBAuth_NONE ->
        fatal s (snd (handshake packet s)))
  /\ (4 <= len packet -> status_code packet <> 0 ->
        fatal s (snd (_parse_security_result packet s)))
  /\ (16 < len packet -> firstn 4 packet <> rect_marker ->
        fatal s (snd (update packet s)))
  /\ (16 < len packet -> firstn 4 packet = rect_marker ->
        rect_encoding packet <> RAW ->
        fatal s (snd (update packet s)))
  /\ (aborts (snd (current packet s)) <> aborts s ->
      fatal s (snd (current packet s))).
Proof.
  split; [|split; [|split; [|split; [|split]]]].
  - intros b rest -> Hz. rewrite (handshake_zero_count _ _ b rest s Hz).
    cbn [snd]. auto with fatal_paths.
  - intros b t0 more -> Hlen Hnone.
    rewrite (handshake_exact _ _ b t0 more s Hlen). cbv zeta.
    apply Z.eqb_neq in Hnone. rewrite Hnone. cbn [snd].
    auto with fatal_paths.
  - intros Hlen Hr. rewrite (result_denied packet s Hlen Hr). cbn [snd].
    auto with fatal_paths.
  - intros Hlen Hm. rewrite (rect_bad_marker RAW packet s Hlen Hm). cbn [snd].
    auto with fatal_paths.
  - intros Hlen Hm He. rewrite (rect_bad_encoding RAW packet s Hlen Hm He).
    cbn [snd]. auto with fatal_paths.
  - unfold feed. intros Hchanged.
    destruct (packet_parser s); cbn [handler] in *.
    + destruct (handshake_aborts packet s); [contradiction | assumption].
    + destruct (result_aborts packet s); [contradiction | assumption].
    + now rewrite client_init_aborts in Hchanged.
    + destruct (update_aborts packet s); [contradiction | assumption].
Qed.

End FatalPaths.

Lemma C1_short_handshake_raises_witness :
  len [x02; x01] < 1 + byte_val x02
  /\ fst (Rfb.parse_security_handshake [x02; x01] (Rfb.fresh AwaitingSecurityHandshake))
     = inl StructError.
Proof.
  assert (H : len [x02; x01] < 1 + byte_val x02) by (vm_compute; reflexivity).
  split; [exact H|].
  exact (proj1 (C1_short_handshake_raises Rfb.RFBAuth_values Rfb.RFBAuth_NONE
                  x02 [x01] (Rfb.fresh AwaitingSecurityHandshake) H)).
Defined.

Lemma C2_extra_bytes_raise_witness :
  fst (Rfb.parse_security_handshake [x01; x01; x00] (Rfb.fresh AwaitingSecurityHandshake))
  = inl StructError
  /\ fst (Rfb.parse_security_handshake [x01; x01] (Rfb.fresh AwaitingSecurityHandshake))
     = inr (PyInt 2).
Proof.
  split.
  - refine (proj1 (proj2 (C2_extra_bytes_raise Rfb.RFBAuth_values Rfb.RFBAuth_NONE
                     x01 x01 [x00] (Rfb.fresh AwaitingSecurityHandshake) _ _) _)).
    + vm_compute; discriminate.
    + reflexivity.
    + vm_compute; reflexivity.
  - refine (proj1 (proj1 (C2_extra_bytes_raise Rfb.RFBAuth_values Rfb.RFBAuth_NONE
                     x01 x01 [] (Rfb.fresh AwaitingSecurityHandshake) _ _) _)).
    + vm_compute; discriminate.
    + reflexivity.
    + reflexivity.
Defined.

Lemma C5_no_abort_behind_complete_list_witness :
  fst (Rfb.parse_security_handshake [x01; x02; x00]
         (Rfb.fresh AwaitingSecurityHandshake)) = inl StructError
  /\ aborts (snd (Rfb.parse_security_handshake [x01; x02; x00]
                    (Rfb.fresh AwaitingSecurityHandshake))) = []
  /\ aborts (snd (Rfb.parse_security_handshake [x01; x02]
                    (Rfb.fresh AwaitingSecurityHandshake)))
     = [InternalError [x01; x02] (Security_type_not_supported (Member 2))].
Proof.
  assert (Hn : 1 <= byte_val x01) by (vm_compute; discriminate).
  assert (Hnone : byte_val x02 <> Rfb.RFBAuth_NONE) by (vm_compute; discriminate).
  pose proof (C5_no_abort_behind_complete_list Rfb.RFBAuth_values Rfb.RFBAuth_NONE
                x01 x02 [x00] (Rfb.fresh AwaitingSecurityHandshake) Hn Hnone)
    as [_ Hlong].
  pose proof (C5_no_abort_behind_complete_list Rfb.RFBAuth_values Rfb.RFBAuth_NONE
                x01 x02 [] (Rfb.fresh AwaitingSecurityHandshake) Hn Hnone)
    as [Hexact _].
  assert (H1 : byte_val x01 < len [x02; x00]) by (vm_compute; reflexivity).
  destruct (Hlong H1) as (Hraise & Habort & _).
  destruct (Hexact eq_refl) as (_ & Habort' & _).
  split; [exact Hraise|]. split; [exact Habort|]. exact Habort'.
Defined.

Lemma C4_security_result_witness :
  _parse_security_result [x00; x00; x00] (Rfb.fresh AwaitingSecurityResult)
  = (inr (PyInt 0), Rfb.fresh AwaitingSecurityResult)
  /\ sent (snd (_parse_security_result [x00; x00; x00; x02]
                  (Rfb.fresh AwaitingSecurityResult))) = []
  /\ fst (_parse_security_result [x00; x00; x00; x00]
            (Rfb.fresh AwaitingSecurityResult)) = inr (PyInt 4).
Proof.
  split; [|split].
  - apply (proj1 (C4_security_result [x00; x00; x00] _)).
    vm_compute; reflexivity.
  - refine (proj1 (proj2 (proj2 (proj1 (proj2 (C4_security_result [x00; x00; x00; x02]
                                   (Rfb.fresh AwaitingSecurityResult))) _ _)))).
    + vm_compute; discriminate.
    + vm_compute; discriminate.
  - refine (proj1 (proj2 (proj2 (C4_security_result [x00; x00; x00; x00]
                                   (Rfb.fresh AwaitingSecurityResult))) _ _)).
    + vm_compute; discriminate.
    + reflexivity.
Defined.

Lemma C6_client_init_witness :
  let early := refeed Rfb.parse_client_init
                 (map (fun n => firstn n Rfb.client_init_message) [0; 1; 24; 25]%nat)
                 (Rfb.fresh AwaitingClientInit) in
  fst early = repeat (inr (PyInt 0)) 4
  /\ fst (Rfb.parse_client_init Rfb.client_init_message (snd early)) = inr (PyInt 26)
  /\ sent (snd (Rfb.parse_client_init Rfb.client_init_message (snd early)))
     = [[x02; x00; x00; x01; x00; x00; x00; x00]].
Proof.
  assert (Hfields : codes Rfb.CLIENT_INIT <> []) by discriminate.
  assert (Hbyte : 0 <= Rfb.SetEncodings < 256) by (vm_compute; intuition discriminate).
  assert (Hraw : - 2 ^ 31 <= Rfb.RAW < 2 ^ 31) by (vm_compute; intuition discriminate).
  assert (Hhdr : calcsize Rfb.CLIENT_INIT <= len Rfb.client_init_message)
    by (vm_compute; discriminate).
  assert (Hname : calcsize Rfb.CLIENT_INIT + name_length Rfb.CLIENT_INIT Rfb.client_init_message
                  <= len Rfb.client_init_message)
    by (vm_compute; discriminate).
  assert (Hcuts : forall n, In n [0; 1; 24; 25]%nat ->
            Z.of_nat n < calcsize Rfb.CLIENT_INIT
                         + name_length Rfb.CLIENT_INIT Rfb.client_init_message).
  { intros n Hn. change (calcsize Rfb.CLIENT_INIT
                         + name_length Rfb.CLIENT_INIT Rfb.client_init_message) with 26.
    simpl in Hn. lia. }
  pose proof (C6_client_init Rfb.SetEncodings Rfb.RAW Rfb.CLIENT_INIT Rfb.bytestostr
                Hfields Hbyte Hraw Rfb.client_init_message [0; 1; 24; 25]%nat
                (Rfb.fresh AwaitingClientInit) Hhdr Hname Hcuts) as H.
  cbv zeta in H. cbv zeta.
  destruct H as (Hzero & _ & Hret & _ & _ & Hsent & _).
  split; [exact Hzero|]. split; [exact Hret|]. exact Hsent.
Defined.

Lemma C3_threshold_exact_unbounded_witness :
  payload_length Rfb.largest_rectangle = 17179344900
  /\ fst (Rfb.parse_rfb_packet Rfb.largest_rectangle (Rfb.fresh SteadyStateUpdates))
     = inr (PyInt 0)
  /\ fst (Rfb.parse_rfb_packet Rfb.empty_rectangle (Rfb.fresh SteadyStateUpdates))
     = inr (PyInt 0)
  /\ fst (Rfb.parse_rfb_packet Rfb.small_rectangle (Rfb.fresh SteadyStateUpdates))
     = inr (PyInt 32).
Proof.
  split; [reflexivity|]. split; [|split].
  - refine (proj1 (proj2 (proj2 (proj2 (proj2 (C3_threshold_exact_unbounded Rfb.RAW
              Rfb.largest_rectangle (Rfb.fresh SteadyStateUpdates)
              eq_refl eq_refl))))) _).
    right. vm_compute. reflexivity.
  - refine (proj1 (proj2 (proj2 (proj2 (proj2 (C3_threshold_exact_unbounded Rfb.RAW
              Rfb.empty_rectangle (Rfb.fresh SteadyStateUpdates)
              eq_refl eq_refl))))) _).
    left. vm_compute. discriminate.
  - refine (proj1 (proj2 (proj2 (proj2 (proj2 (proj2 (C3_threshold_exact_unbounded
              Rfb.RAW Rfb.small_rectangle (Rfb.fresh SteadyStateUpdates)
              eq_refl eq_refl)))))) _ _).
    + vm_compute. reflexivity.
    + vm_compute. discriminate.
Defined.

Lemma C7_non_raw_encoding_returns_none_witness :
  fst (Rfb.parse_rfb_packet
         ([x00; x00; x00; x01; x00; x00; x00; x00; x00; x02; x00; x02;
           x00; x00; x00; x05; x2a])
         (Rfb.fresh SteadyStateUpdates)) = inr PyNone
  /\ fst (Rfb.parse_rfb_packet
            ([x00; x00; x00; x02; x00; x00; x00; x00; x00; x02; x00; x02;
              x00; x00; x00; x00; x2a])
            (Rfb.fresh SteadyStateUpdates)) = inr (PyInt 0).
Proof.
  split.
  - refine (proj1 (proj1 (C7_non_raw_encoding_returns_none Rfb.RAW _
                            (Rfb.fresh SteadyStateUpdates)) _ _ _)).
    + vm_compute. reflexivity.
    + reflexivity.
    + vm_compute. discriminate.
  - refine (proj1 (proj2 (proj2 (C7_non_raw_encoding_returns_none Rfb.RAW _
                                   (Rfb.fresh SteadyStateUpdates)))) _ _).
    + vm_compute. reflexivity.
    + discriminate.
Defined.

Lemma C9_header_only_buffer_waits_witness :
  fst (refeed Rfb.parse_rfb_packet (repeat Rfb.empty_rectangle 3)
         (Rfb.fresh SteadyStateUpdates))
  = repeat (inr (PyInt 0)) 3
  /\ len Rfb.empty_rectangle = 16 + payload_length Rfb.empty_rectangle.
Proof.
  pose proof (C9_header_only_buffer_waits Rfb.RAW Rfb.empty_rectangle 3
                (Rfb.fresh SteadyStateUpdates) eq_refl) as (_ & Hz & _ & Harea).
  split; [exact Hz|]. apply Harea. reflexivity.
Defined.

Lemma C10_fatal_paths_keep_state_witness :
  fatal (Rfb.fresh AwaitingSecurityHandshake)
    (snd (Rfb.parse_security_handshake [x00] (Rfb.fresh AwaitingSecurityHandshake)))
  /\ fatal (Rfb.fresh AwaitingSecurityHandshake)
       (snd (Rfb.parse_security_handshake [x01; x02] (Rfb.fresh AwaitingSecurityHandshake)))
  /\ fatal (Rfb.fresh AwaitingSecurityResult)
       (snd (_parse_security_result [x00; x00; x00; x01] (Rfb.fresh AwaitingSecurityResult))).
Proof.
  split; [|split].
  - refine (proj1 (C10_fatal_paths_keep_state Rfb.RFBAuth_values Rfb.RFBAuth_NONE
              Rfb.SetEncodings Rfb.RAW Rfb.CLIENT_INIT Rfb.bytestostr
              [x00] (Rfb.fresh AwaitingSecurityHandshake)) x00 [] eq_refl eq_refl).
  - refine (proj1 (proj2 (C10_fatal_paths_keep_state Rfb.RFBAuth_values Rfb.RFBAuth_NONE
              Rfb.SetEncodings Rfb.RAW Rfb.CLIENT_INIT Rfb.bytestostr
              [x01; x02] (Rfb.fresh AwaitingSecurityHandshake))) x01 x02 [] eq_refl eq_refl _).
    vm_compute. discriminate.
  - refine (proj1 (proj2 (proj2 (C10_fatal_paths_keep_state Rfb.RFBAuth_values
              Rfb.RFBAuth_NONE Rfb.SetEncodings Rfb.RAW Rfb.CLIENT_INIT Rfb.bytestostr
              [x00; x00; x00; x01] (Rfb.fresh AwaitingSecurityResult)))) _ _).
    + vm_compute. discriminate.
    + vm_compute. discriminate.
Defined.

(** * Further properties of the parser *)

Section SessionInvariants.

Variable RFBAuth_values : list Z.
Variable RFBAuth_NONE : Z.
Variable SetEncodings : Z.
Variable RAW : Z.
Variable CLIENT_INIT : format.
Variable bytestostr : bytes -> String.string.

Local Abbreviation handshake := (_parse_security_handshake RFBAuth_values RFBAuth_NONE).
Local Abbreviation client_init :=
  (_parse_client_init SetEncodings RAW CLIENT_INIT bytestostr).
Local Abbreviation update := (_parse_rfb_packet RAW).
Local Abbreviation current :=
  (feed RFBAuth_values RFBAuth_NONE SetEncodings RAW CLIENT_INIT bytestostr).

Lemma stays (s : session) (r : exn + value) (p : ParseState) (snt : list bytes)
    (abs : list abort_call) (lg : list log_record) :
  p = packet_parser s -> snt = sent s ->
  one_step s r (mkSession p snt abs lg).
Proof. intros -> ->. left. split; reflexivity. Qed.

Lemma handshake_step (packet : bytes) (s : session) :
  packet_parser s = AwaitingSecurityHandshake ->
  one_step s (fst (handshake packet s)) (snd (handshake packet s)).
Proof.
  intros Hp. destruct packet as [|b rest].
  { rewrite handshake_empty. now apply stays. }
  destruct (Z.eq_dec (byte_val b) 0) as [Hz|Hnz].
  { rewrite (handshake_zero_count _ _ b rest s Hz). now apply stays. }
  destruct (Z.eq_dec (len rest) (byte_val b)) as [Hlen|Hlen].
  - destruct rest as [|t0 more].
    { unfold len in Hlen. simpl in Hlen. congruence. }
    rewrite (handshake_exact _ _ b t0 more s Hlen). cbv zeta.
    destruct (byte_val t0 =? RFBAuth_NONE); cbn [fst snd]; [|now apply stays].
    right. rewrite Hp. cbn [packet_parser sent aborts next_state].
    repeat split; try discriminate. left. now eexists _, _.
  - rewrite (handshake_wrong_size _ _ b rest s Hnz Hlen). now apply stays.
Qed.

Lemma result_step (packet : bytes) (s : session) :
  packet_parser s = AwaitingSecurityResult ->
  one_step s (fst (_parse_security_result packet s))
    (snd (_parse_security_result packet s)).
Proof.
  intros Hp. destruct (Z.lt_ge_cases (len packet) 4) as [Hlt|Hge].
  { rewrite (result_short packet s Hlt). now left. }
  destruct (Z.eq_dec (status_code packet) 0) as [Hz|Hnz].
  - rewrite (result_granted packet s Hge Hz). cbn [fst snd].
    right. rewrite Hp. cbn [packet_parser sent aborts next_state].
    repeat split; try discriminate. left. now eexists _, _.
  - rewrite (result_denied packet s Hge Hnz). now apply stays.
Qed.

Lemma client_init_step (packet : bytes) (s : session) :
  packet_parser s = AwaitingClientInit ->
  one_step s (fst (client_init packet s)) (snd (client_init packet s)).
Proof.
  intros Hp.
  unfold _parse_client_init, send_set_encodings, bind, ret, lift, log,
    send, set_packet_parser.
  cbn [fst snd packet_parser sent aborts logged].
  repeat match goal with
         | |- context [if ?c then _ else _] => destruct c
         | |- context [match ?x with inl _ => _ | inr _ => _ end] => destruct x
         end; cbn [fst snd];
    try (now apply stays).
  - right. rewrite Hp. cbn [packet_parser sent aborts next_state].
    repeat split; try discriminate. right. split; [reflexivity | now eexists].
  - right. rewrite Hp. cbn [packet_parser sent aborts next_state].
    repeat split; try discriminate. left. now eexists _, _.
Qed.

Lemma update_step (packet : bytes) (s : session) :
  packet_parser (snd (update packet s)) = packet_parser s
  /\ sent (snd (update packet s)) = sent s.
Proof.
  destruct (Z.le_gt_cases (len packet) 16) as [Hle|Hgt].
  { rewrite (rect_short RAW packet s Hle). now split. }
  assert (Hlen : 16 < len packet) by lia.
  destruct (list_eq_dec Byte.byte_eq_dec (firstn 4 packet) rect_marker) as [Hm|Hm].
  - destruct (Z.eq_dec (rect_encoding packet) RAW) as [He|He].
    + rewrite (rect_raw RAW packet s (conj Hlen (conj Hm He))). now split.
    + rewrite (rect_bad_encoding RAW packet s Hlen Hm He). now split.
  - rewrite (rect_bad_marker RAW packet s Hlen Hm). now split.
Qed.

Lemma current_step (packet : bytes) (s : session) :
  one_step s (fst (current packet s)) (snd (current packet s)).
Proof.
  unfold feed. destruct (packet_parser s) eqn:Hp; cbn [handler].
  - now apply handshake_step.
  - now apply result_step.
  - now apply client_init_step.
  - left. apply update_step.
Qed.

Lemma stage_next (p : ParseState) :
  p <> SteadyStateUpdates -> stage (next_state p) = S (stage p).
Proof. destruct p; cbn; congruence. Qed.

Lemma stage_bound (p : ParseState) : (stage p <= 3)%nat.
Proof. destruct p; cbn; lia. Qed.

(** Over a sequence of calls: the messages sent are appended to those
    sent before, and each is paid for by one state advance. *)
Lemma refeed_current (buffers : list bytes) (s : session) :
  exists msgs,
    sent (snd (refeed current buffers s)) = sent s ++ msgs
    /\ (length msgs + stage (packet_parser s)
        <= stage (packet_parser (snd (refeed current buffers s))))%nat.
Proof.
  revert s. induction buffers as [|b rest IH]; intros s.
  - exists []. cbn [refeed snd length]. rewrite app_nil_r. split; [reflexivity | lia].
  - cbn [refeed]. pose proof (current_step b s) as Hstep.
    destruct (current b s) as [r s'] eqn:Ecall. cbn [fst snd] in Hstep.
    destruct (IH s') as (msgs & Hsent & Hstage).
    destruct (refeed current rest s') as [rs s''] eqn:Erest. cbn [snd] in *.
    destruct Hstep as [[Hp Hs]|(Hne & Hp & _ & [(m & n & Hs & _)|[Hs _]])].
    + exists msgs. rewrite Hsent, Hs. split; [reflexivity|]. rewrite <- Hp. lia.
    + exists (m :: msgs). rewrite Hsent, Hs, <- app_assoc. split; [reflexivity|].
      rewrite Hp, (stage_next _ Hne) in Hstage. cbn [length]. lia.
    + exists msgs. rewrite Hsent, Hs. split; [reflexivity|].
      rewrite Hp, (stage_next _ Hne) in Hstage. lia.
Qed.

(** X1.  A call of the current parser leaves [_packet_parser] bound as
    it was or binds the parser of the next state, on every buffer and
    also when the call raises; so over any sequence of calls the state
    never goes back, and once [_parse_rfb_packet] is bound it stays
    bound. *)
Theorem X1_state_never_goes_back (buffers : list bytes) (packet : bytes) (s : session) :
  (packet_parser (snd (current packet s)) = packet_parser s
   \/ packet_parser (snd (current packet s)) = next_state (packet_parser s))
  /\ (stage (packet_parser s)
      <= stage (packet_parser (snd (refeed current buffers s))))%nat
  /\ (packet_parser s = SteadyStateUpdates ->
      packet_parser (snd (refeed current buffers s)) = SteadyStateUpdates).
Proof.
  split; [|split].
  - destruct (current_step packet s) as [[Hp _]|(_ & Hp & _)]; [now left | now right].
  - destruct (refeed_current buffers s) as (msgs & _ & Hstage). lia.
  - intros Hp. destruct (refeed_current buffers s) as (msgs & _ & Hstage).
    rewrite Hp in Hstage. cbn [stage] in Hstage.
    pose proof (stage_bound (packet_parser (snd (refeed current buffers s)))) as Hb.
    destruct (packet_parser (snd (refeed current buffers s))); cbn [stage] in *;
      trivial; lia.
Qed.

(** X2.  A call sends at most one message, and only when it binds the
    next parser without an abort; so whatever buffers are fed, what was
    sent before stays sent, and a session sends no more messages than
    it has advanced states: three at most, none once it is in the
    steady state. *)
Theorem X2_one_send_per_advance (buffers : list bytes) (packet : bytes) (s : session) :
  (sent (snd (current packet s)) = sent s
   \/ exists m, sent (snd (current packet s)) = sent s ++ [m]
                /\ packet_parser s <> SteadyStateUpdates
                /\ packet_parser (snd (current packet s)) = next_state (packet_parser s)
                /\ aborts (snd (current packet s)) = aborts s)
  /\ exists msgs,
       sent (snd (refeed current buffers s)) = sent s ++ msgs
       /\ (length msgs + stage (packet_parser s)
           <= stage (packet_parser (snd (refeed current buffers s))))%nat
       /\ (length msgs <= 3 - stage (packet_parser s))%nat.
Proof.
  split.
  - destruct (current_step packet s)
      as [[_ Hs]|(Hne & Hp & Ha & [(m & n & Hs & _)|[Hs _]])];
      [now left | right | now left].
    exists m. now repeat split.
  - destruct (refeed_current buffers s) as (msgs & Hsent & Hstage).
    exists msgs. split; [exact Hsent|]. split; [exact Hstage|].
    pose proof (stage_bound (packet_parser (snd (refeed current buffers s)))). lia.
Qed.

Lemma handshake_count (packet : bytes) (s : session) (n : Z) :
  fst (handshake packet s) = inr (PyInt n) -> n = 0 \/ (0 < n /\ n = len packet).
Proof.
  destruct packet as [|b rest]; [rewrite handshake_empty; discriminate|].
  destruct (Z.eq_dec (byte_val b) 0) as [Hz|Hnz].
  { rewrite (handshake_zero_count _ _ b rest s Hz). intros [= <-]. now left. }
  destruct (Z.eq_dec (len rest) (byte_val b)) as [Hlen|Hlen].
  - destruct rest as [|t0 more].
    { unfold len in Hlen. simpl in Hlen. congruence. }
    rewrite (handshake_exact _ _ b t0 more s Hlen). cbv zeta.
    destruct (byte_val t0 =? RFBAuth_NONE); cbn [fst]; intros Hr;
      [right | left; congruence].
    assert (Hn : n = 1 + byte_val b) by congruence.
    rewrite (len_cons b), Hlen. pose proof (byte_val_range b). lia.
  - rewrite (handshake_wrong_size _ _ b rest s Hnz Hlen). discriminate.
Qed.

Lemma result_count (packet : bytes) (s : session) (n : Z) :
  fst (_parse_security_result packet s) = inr (PyInt n) ->
  n = 0 \/ (n = 4 /\ 4 <= len packet).
Proof.
  destruct (Z.lt_ge_cases (len packet) 4) as [Hlt|Hge].
  { rewrite (result_short packet s Hlt). intros [= <-]. now left. }
  destruct (Z.eq_dec (status_code packet) 0) as [Hz|Hnz].
  - rewrite (result_granted packet s Hge Hz). intros [= <-]. now right.
  - rewrite (result_denied packet s Hge Hnz). intros [= <-]. now left.
Qed.

Lemma client_init_count (packet : bytes) (s : session) (n : Z) :
  fst (client_init packet s) = inr (PyInt n) ->
  n = 0
  \/ (n = calcsize CLIENT_INIT + name_length CLIENT_INIT packet
      /\ calcsize CLIENT_INIT <= len packet /\ n <= len packet).
Proof.
  unfold _parse_client_init, send_set_encodings, bind, ret, lift, log,
    send, set_packet_parser.
  cbn [fst snd packet_parser sent aborts logged].
  destruct (len packet <? calcsize CLIENT_INIT) eqn:E1;
    [cbn [fst]; intros [= <-]; now left|].
  apply Z.ltb_ge in E1.
  destruct (codes CLIENT_INIT) as [|c cs] eqn:Ecodes.
  { unfold unpack. rewrite Ecodes.
    destruct (_ =? _); cbn [fst unpack_fields last_item rev]; discriminate. }
  assert (Hfields : codes CLIENT_INIT <> []) by (rewrite Ecodes; discriminate).
  pose proof (unpack_last_field CLIENT_INIT packet Hfields E1) as Hlast.
  destruct (unpack CLIENT_INIT (slice packet None (Some (calcsize CLIENT_INIT))))
    as [e|t]; [contradiction|].
  rewrite Hlast.
  destruct (len packet <? calcsize CLIENT_INIT + name_length CLIENT_INIT packet) eqn:E2;
    [cbn [fst]; intros [= <-]; now left|].
  apply Z.ltb_ge in E2.
  destruct (pack _ _); cbn [fst]; [discriminate|].
  intros [= <-]. right. repeat split; assumption.
Qed.

Lemma update_count (packet : bytes) (s : session) (n : Z) :
  fst (update packet s) = inr (PyInt n) ->
  n = 0 \/ (n = 16 + payload_length packet /\ n <= len packet).
Proof.
  destruct (Z.le_gt_cases (len packet) 16) as [Hle|Hgt].
  { rewrite (rect_short RAW packet s Hle). intros [= <-]. now left. }
  assert (Hlen : 16 < len packet) by lia.
  destruct (list_eq_dec Byte.byte_eq_dec (firstn 4 packet) rect_marker) as [Hm|Hm].
  - destruct (Z.eq_dec (rect_encoding packet) RAW) as [He|He].
    + rewrite (rect_raw RAW packet s (conj Hlen (conj Hm He))). cbn [fst].
      destruct (len packet <? 16 + payload_length packet) eqn:E; intros [= <-];
        [now left | right]. apply Z.ltb_ge in E. now split.
    + rewrite (rect_bad_encoding RAW packet s Hlen Hm He). discriminate.
  - rewrite (rect_bad_marker RAW packet s Hlen Hm). intros [= <-]. now left.
Qed.

(** X3.  Whatever the state and the buffer, a count the current parser
    returns is never more than the number of bytes in the buffer; it is
    never negative either, except for a client init whose name length
    field reads negative. *)
Theorem X3_count_within_buffer (packet : bytes) (s : session) (n : Z) :
  fst (current packet s) = inr (PyInt n) ->
  n <= len packet
  /\ (packet_parser s <> AwaitingClientInit
      \/ 0 <= name_length CLIENT_INIT packet -> 0 <= n).
Proof.
  unfold feed. pose proof (len_nonneg packet) as Hpos.
  destruct (packet_parser s); cbn [handler]; intros Hr.
  - destruct (handshake_count packet s n Hr) as [->|[H0 ->]]; split; intros.
    all: lia.
  - destruct (result_count packet s n Hr) as [->|[-> H4]]; split; intros; lia.
  - destruct (client_init_count packet s n Hr) as [->|(Hn & Hci & Hle)];
      [split; intros; lia|].
    split; [exact Hle|]. intros [Hne|Hname]; [congruence|].
    unfold calcsize in *. lia.
  - pose proof (payload_length_range packet).
    destruct (update_count packet s n Hr) as [->|[-> Hle]]; split; intros; lia.
Qed.

End SessionInvariants.

(** ** Encoding and decoding of fields *)

Lemma byte_val_of_Z (v : Z) : byte_val (byte_of_Z v) = v mod 256.
Proof.
  unfold byte_of_Z, byte_val.
  assert (Hr : 0 <= v mod 256 < 256) by (apply Z.mod_pos_bound; lia).
  destruct (Byte.of_N (Z.to_N (v mod 256))) as [b|] eqn:E.
  - apply Byte.to_of_N in E. rewrite E. lia.
  - apply Byte.of_N_None_iff in E. lia.
Qed.

Lemma be_value_be_bytes (n : nat) (v : Z) :
  be_value (be_bytes n v) = v mod 256 ^ Z.of_nat n.
Proof.
  revert v. induction n as [|n IH]; intros v.
  - cbn. now rewrite Z.mod_1_r.
  - cbn [be_bytes]. rewrite be_value_snoc, IH, byte_val_of_Z.
    replace (Z.of_nat (S n)) with (Z.succ (Z.of_nat n)) by lia.
    rewrite Z.pow_succ_r by lia.
    assert (0 < 256 ^ Z.of_nat n) by (apply Z.pow_pos_nonneg; lia).
    rewrite Z.rem_mul_r by lia.
    lia.
Qed.

Lemma be_bytes_length (n : nat) (v : Z) : length (be_bytes n v) = n.
Proof.
  revert v. induction n as [|n IH]; intros v; cbn [be_bytes]; trivial.
  rewrite length_app, IH. cbn. lia.
Qed.

Lemma set_encodings_message_length (t e : Z) :
  length (set_encodings_message t e) = 8%nat.
Proof.
  unfold set_encodings_message. rewrite !length_app, be_bytes_length. reflexivity.
Qed.

(** What [struct.pack] writes for a value in range, [struct.unpack]
    reads back, in network order. *)
Lemma decode_encode (c : code) (v : Z) :
  in_range c v = true ->
  decode Network c (encode Network c v) = v.
Proof.
  unfold in_range, decode, encode, field_bytes. rewrite be_value_be_bytes.
  replace (256 ^ Z.of_nat (code_size c)) with (2 ^ (8 * Z.of_nat (code_size c)))
    by (rewrite Z.pow_mul_r by lia; reflexivity).
  set (w := 2 ^ (8 * Z.of_nat (code_size c))).
  assert (Hw : 0 < w) by (apply Z.pow_pos_nonneg; lia).
  assert (Heven : w = 2 * (w / 2)).
  { unfold w. destruct c; reflexivity. }
  destruct (code_signed c); cbn [andb]; intros Hr;
    apply andb_true_iff in Hr; destruct Hr as [Hlo Hhi];
    apply Z.leb_le in Hlo; apply Z.ltb_lt in Hhi.
  - destruct (Z.lt_ge_cases v 0) as [Hneg|Hpos].
    + assert (Hm : v mod w = v + w).
      { symmetry. apply (Z.mod_unique v w (-1)); lia. }
      rewrite Hm. destruct (w / 2 <=? v + w) eqn:E; [lia|].
      apply Z.leb_gt in E. lia.
    + rewrite Z.mod_small by lia.
      destruct (w / 2 <=? v) eqn:E; [apply Z.leb_le in E; lia | reflexivity].
  - now rewrite Z.mod_small by lia.
Qed.

Section Messages.

Variable RFBAuth_values : list Z.
Variable RFBAuth_NONE : Z.
Variable SetEncodings : Z.
Variable RAW : Z.
Variable CLIENT_INIT : format.
Variable bytestostr : bytes -> String.string.

Hypothesis CLIENT_INIT_fields : codes CLIENT_INIT <> [].
Hypothesis SetEncodings_byte : 0 <= SetEncodings < 256.
Hypothesis RAW_int32 : - 2 ^ 31 <= RAW < 2 ^ 31.

Local Abbreviation current :=
  (feed RFBAuth_values RFBAuth_NONE SetEncodings RAW CLIENT_INIT bytestostr).

(** X4.  The message [send_set_encodings] sends is 8 bytes long and
    reads back, with the format it was packed with, as the message
    type, 0, the count 1 and the raw encoding. *)
Theorem X4_set_encodings_reads_back (s : session) :
  exists message,
    send_set_encodings SetEncodings RAW s
    = (inr tt, mkSession (packet_parser s) (sent s ++ [message]) (aborts s) (logged s))
    /\ len message = 8
    /\ unpack (network [cB; cB; cH; ci]) message = inr [SetEncodings; 0; 1; RAW].
Proof.
  exists (set_encodings_message SetEncodings RAW).
  split; [|split].
  - unfold send_set_encodings, bind, lift, send.
    now rewrite (pack_set_encodings _ _ SetEncodings_byte RAW_int32).
  - unfold len. now rewrite set_encodings_message_length.
  - unfold unpack, len. rewrite set_encodings_message_length.
    change (Z.of_nat 8 =? calcsize (network [cB; cB; cH; ci])) with true.
    unfold set_encodings_message, network.
    cbn [order codes unpack_fields align code_size Nat.add].
    cbn [app skipn].
    rewrite (firstn_all2 (n := 4) (be_bytes 4 RAW)) by now rewrite be_bytes_length.
    cbn [firstn].
    pose proof (decode_encode cB SetEncodings (in_range_B _ SetEncodings_byte)) as Ht.
    pose proof (decode_encode ci RAW (in_range_i _ RAW_int32)) as He.
    unfold encode, field_bytes in Ht, He. cbn [code_size be_bytes app] in Ht.
    rewrite Ht.
    change (be_bytes 4 RAW) with (be_bytes (code_size ci) RAW).
    rewrite He. reflexivity.
Qed.

(** X5.  Fed one message at a time, a server that offers no-auth first,
    grants the authentication and sends its init takes the client from
    the security handshake to the steady state: the three calls consume
    the three messages whole, and the client has sent the selector
    byte, the share flag and the set-encodings message, in this order,
    without an abort. *)
Theorem X5_handshake_end_to_end (b t0 : byte) (more init : bytes) (s : session) :
  packet_parser s = AwaitingSecurityHandshake ->
  len (t0 :: more) = byte_val b ->
  byte_val t0 = RFBAuth_NONE ->
  calcsize CLIENT_INIT <= len init ->
  len init = calcsize CLIENT_INIT + name_length CLIENT_INIT init ->
  let offer := b :: t0 :: more in
  let granted := [x00; x00; x00; x00] in
  let r := refeed current [offer; granted; init] s in
  fst r = [inr (PyInt (len offer)); inr (PyInt (len granted)); inr (PyInt (len init))]
  /\ packet_parser (snd r) = SteadyStateUpdates
  /\ sent (snd r) = sent s ++ [[x00]; [x00]; set_encodings_message SetEncodings RAW]
  /\ aborts (snd r) = aborts s.
Proof.
  intros Hp Hlen Hnone Hhdr Hinit offer granted r. subst offer granted r.
  assert (Hrun : exists lg,
            refeed current [b :: t0 :: more; [x00; x00; x00; x00]; init] s
            = ([inr (PyInt (1 + byte_val b)); inr (PyInt 4);
                inr (PyInt (calcsize CLIENT_INIT + name_length CLIENT_INIT init))],
               mkSession SteadyStateUpdates
                 (((sent s ++ [[x00]]) ++ [[x00]])
                    ++ [set_encodings_message SetEncodings RAW])
                 (aborts s) lg)).
  { cbn [refeed]. unfold feed. rewrite Hp. cbn [handler].
    rewrite (handshake_exact _ _ b t0 more s Hlen). cbv zeta.
    apply Z.eqb_eq in Hnone. rewrite Hnone. cbn [packet_parser handler].
    rewrite result_granted by (try reflexivity; vm_compute; discriminate).
    cbn [packet_parser handler].
    rewrite (client_init_complete SetEncodings RAW CLIENT_INIT bytestostr
               CLIENT_INIT_fields SetEncodings_byte RAW_int32 init _ Hhdr)
      by lia.
    cbn [packet_parser sent aborts logged]. eexists. reflexivity. }
  destruct Hrun as [lg ->]. cbn [fst snd packet_parser sent aborts].
  rewrite <- Hinit, (len_cons b), Hlen, <- !app_assoc.
  repeat split.
Qed.

End Messages.

Section EdgeBuffers.

Variable RFBAuth_values : list Z.
Variable RFBAuth_NONE : Z.
Variable SetEncodings : Z.
Variable RAW : Z.
Variable CLIENT_INIT : format.
Variable bytestostr : bytes -> String.string.

Local Abbreviation current :=
  (feed RFBAuth_values RFBAuth_NONE SetEncodings RAW CLIENT_INIT bytestostr).

(** X6.  Called before any byte has arrived, the security handshake
    parser raises [struct.error], while the parsers of the three later
    states return 0 and leave the session as it was (but for the log),
    provided the client-init format is not empty. *)
Theorem X6_empty_buffer (s : session) :
  (packet_parser s = AwaitingSecurityHandshake ->
     fst (current [] s) = inl StructError /\ quiet s (snd (current [] s)))
  /\ (packet_parser s <> AwaitingSecurityHandshake ->
      0 < calcsize CLIENT_INIT ->
      fst (current [] s) = inr (PyInt 0) /\ quiet s (snd (current [] s))).
Proof.
  unfold feed. split.
  - intros ->. cbn [handler]. rewrite handshake_empty. now repeat split.
  - intros Hne Hsize. destruct (packet_parser s); cbn [handler].
    + congruence.
    + rewrite result_short by (vm_compute; reflexivity). now repeat split.
    + unfold _parse_client_init, bind, ret, log.
      cbn [fst snd packet_parser sent aborts logged].
      change (len (@nil byte)) with 0.
      apply Z.ltb_lt in Hsize. rewrite Hsize. now repeat split.
    + rewrite (rect_short RAW [] s) by (vm_compute; discriminate).
      now repeat split.
Qed.

(** X7.  A raw rectangle of zero area is consumed, as its 16 header
    bytes, exactly when at least one more byte is buffered behind it. *)
Theorem X7_zero_area_rectangle (packet : bytes) (s : session) :
  16 <= len packet ->
  firstn 4 packet = rect_marker ->
  rect_encoding packet = RAW ->
  rect_width packet * rect_height packet = 0 ->
  (16 < len packet -> fst (_parse_rfb_packet RAW packet s) = inr (PyInt 16))
  /\ (len packet = 16 -> fst (_parse_rfb_packet RAW packet s) = inr (PyInt 0))
  /\ quiet s (snd (_parse_rfb_packet RAW packet s)).
Proof.
  intros Hlen Hm He Harea.
  assert (Hpay : payload_length packet = 0) by (unfold payload_length; lia).
  destruct (Z.eq_dec (len packet) 16) as [H16|H16].
  - rewrite (rect_short RAW packet s) by lia. cbn [fst snd].
    split; [lia|]. now repeat split.
  - assert (Hraw : raw_rectangle RAW packet) by (repeat split; trivial; lia).
    rewrite (rect_raw RAW packet s Hraw), Hpay. cbn [fst snd].
    destruct (len packet <? 16 + 0) eqn:E; [apply Z.ltb_lt in E; lia|].
    split; [reflexivity|]. split; [lia|]. repeat split.
Qed.

End EdgeBuffers.

(** * What the backend test checks *)

Lemma bytes_eqb_refl (a : bytes) : bytes_eqb a a = true.
Proof. now apply bytes_eqb_eq. Qed.

Section AnyBackend.

Context {encryptor decryptor raised : Type}
        {backend : CipherBackend encryptor decryptor raised}.
Variable hexstr : option bytes -> raised + String.string.

(** After the first iteration the loops keep what they have collected. *)
Lemma encrypt_loop_keeps (message : bytes) (n start : nat) (enc : encryptor)
    (encrypted l : list bytes) :
  (0 < start)%nat ->
  encrypt_loop (seq start n) enc message encrypted = inr l -> l = encrypted.
Proof.
  revert start enc. induction n as [|n IH]; intros start enc Hstart H.
  - cbn [seq encrypt_loop] in H. congruence.
  - cbn [seq encrypt_loop] in H. destruct (encrypt enc message) as [r enc'].
    destruct (not_none r) as [f|v]; [discriminate|].
    destruct start; [lia|]. cbn [Nat.eqb] in H.
    apply (IH (S (S start)) enc'); [lia | exact H].
Qed.

Lemma decrypt_loop_keeps (n start : nat) (dec : decryptor)
    (encrypted decrypted l : list bytes) :
  (0 < start)%nat ->
  decrypt_loop hexstr (seq start n) dec encrypted decrypted = inr l -> l = decrypted.
Proof.
  revert start dec. induction n as [|n IH]; intros start dec Hstart H.
  - cbn [seq decrypt_loop] in H. congruence.
  - cbn [seq decrypt_loop] in H. destruct encrypted as [|e0 others]; [discriminate|].
    destruct (decrypt dec e0) as [r dec']. destruct r as [e|v]; [discriminate|].
    destruct (logged_hex hexstr v); [discriminate|].
    destruct (not_none (inr v)) as [f|v']; [discriminate|].
    destruct start; [lia|]. cbn [Nat.eqb] in H.
    apply (IH (S (S start)) dec'); [lia | exact H].
Qed.

(** A loop that returns has had its first call answered with a value,
    which is all it has collected. *)
Lemma encrypt_loop_first (message : bytes) (n : nat) (enc : encryptor)
    (l : list bytes) :
  encrypt_loop (seq 0 (S n)) enc message [] = inr l ->
  exists c enc', encrypt enc message = (inr (Some c), enc') /\ l = [c].
Proof.
  cbn [seq encrypt_loop]. destruct (encrypt enc message) as [r enc'].
  destruct r as [e|[c|]]; cbn [not_none]; try discriminate.
  cbn [Nat.eqb app]. intros H. exists c, enc'. split; [reflexivity|].
  apply (encrypt_loop_keeps message n 1 enc'); [lia | exact H].
Qed.

Lemma decrypt_loop_first (n : nat) (dec : decryptor) (encrypted l : list bytes) :
  decrypt_loop hexstr (seq 0 (S n)) dec encrypted [] = inr l ->
  exists e0 others v dec',
    encrypted = e0 :: others
    /\ decrypt dec e0 = (inr (Some v), dec') /\ l = [v].
Proof.
  cbn [seq decrypt_loop]. destruct encrypted as [|e0 others]; [discriminate|].
  destruct (decrypt dec e0) as [r dec'] eqn:Hcall.
  destruct r as [e|v]; [discriminate|].
  destruct (logged_hex hexstr v); [discriminate|].
  destruct v as [v|]; cbn [not_none]; [|discriminate].
  cbn [Nat.eqb app]. intros H. exists e0, others, v, dec'.
  split; [reflexivity|]. split; [exact Hcall|].
  apply (decrypt_loop_keeps n 1 dec' (e0 :: others)); [lia | exact H].
Qed.

(** When every call returns a value, the later iterations change
    nothing. *)
Lemma encrypt_loop_later (message : bytes) (n start : nat) (enc : encryptor)
    (encrypted : list bytes) :
  (forall e m, exists c, fst (encrypt e m) = inr (Some c)) ->
  (0 < start)%nat ->
  encrypt_loop (seq start n) enc message encrypted = inr encrypted.
Proof.
  intros Hval. revert start enc.
  induction n as [|n IH]; intros start enc Hstart; [reflexivity|].
  cbn [seq encrypt_loop]. destruct (Hval enc message) as (c & Hc).
  destruct (encrypt enc message) as [r enc']. cbn [fst] in Hc. subst r.
  cbn [not_none]. destruct start; [lia|]. cbn [Nat.eqb]. apply IH. lia.
Qed.

Lemma decrypt_loop_later (n start : nat) (dec : decryptor) (e0 : bytes)
    (others decrypted : list bytes) :
  (forall d c, exists m, fst (decrypt d c) = inr (Some m)) ->
  (forall v, exists s, hexstr v = inr s) ->
  (0 < start)%nat ->
  decrypt_loop hexstr (seq start n) dec (e0 :: others) decrypted = inr decrypted.
Proof.
  intros Hval Hhex. revert start dec.
  induction n as [|n IH]; intros start dec Hstart; [reflexivity|].
  cbn [seq decrypt_loop]. destruct (Hval dec e0) as (m & Hm).
  destruct (decrypt dec e0) as [r dec']. cbn [fst] in Hm. subst r.
  unfold logged_hex. destruct (Hhex (Some m)) as (s & Hs). rewrite Hs.
  cbn [not_none]. destruct start; [lia|]. cbn [Nat.eqb]. apply IH. lia.
Qed.

Lemma encrypt_loop_all (message : bytes) (n : nat) (enc : encryptor) :
  (forall e m, exists c, fst (encrypt e m) = inr (Some c)) ->
  exists l, encrypt_loop (seq 0 n) enc message [] = inr l.
Proof.
  intros Hval. destruct n as [|n]; [now exists []|].
  cbn [seq encrypt_loop]. destruct (Hval enc message) as (c & Hc).
  destruct (encrypt enc message) as [r enc']. cbn [fst] in Hc. subst r.
  cbn [not_none Nat.eqb app]. exists [c]. apply encrypt_loop_later; [exact Hval | lia].
Qed.

Lemma mustequ_at_most_one (l : list bytes) :
  (List.length l <= 1)%nat -> @mustequ raised l = inr tt.
Proof.
  destruct l as [|v [|w l]]; cbn [List.length]; intros H; try lia; [reflexivity|].
  cbn [mustequ forallb]. now rewrite bytes_eqb_refl.
Qed.

Lemma mustequ_pair (v message : bytes) :
  @mustequ raised [v; message]
  = if bytes_eqb v message then inr tt else inl (Failed AssertionError).
Proof.
  cbn [mustequ forallb]. rewrite bytes_eqb_refl, andb_true_r. cbn [andb].
  destruct (bytes_eqb message v) eqn:E.
  - apply bytes_eqb_eq in E. subst. now rewrite bytes_eqb_refl.
  - destruct (bytes_eqb v message) eqn:E'; [|reflexivity].
    apply bytes_eqb_eq in E'. subst. now rewrite bytes_eqb_refl in E.
Qed.

Lemma encrypt_loop_length (message : bytes) (n : nat) (enc : encryptor)
    (l : list bytes) :
  encrypt_loop (seq 0 n) enc message [] = inr l -> (List.length l <= 1)%nat.
Proof.
  destruct n as [|n].
  - cbn [seq encrypt_loop]. intros [= <-]. cbn [List.length]. lia.
  - intros H. destruct (encrypt_loop_first message n enc l H) as (c & enc' & _ & ->).
    cbn [List.length]. lia.
Qed.

Variable DEFAULT_SALT : bytes.
Variable DEFAULT_ITERATIONS DEFAULT_BLOCKSIZE : Z.
Variable DEFAULT_IV : bytes.

Local Abbreviation test :=
  (do_test_backend hexstr DEFAULT_SALT DEFAULT_ITERATIONS DEFAULT_BLOCKSIZE DEFAULT_IV).
Local Abbreviation prepared :=
  (set_up hexstr DEFAULT_SALT DEFAULT_ITERATIONS DEFAULT_BLOCKSIZE DEFAULT_IV).
Local Abbreviation key :=
  (get_key Fixture.password DEFAULT_SALT DEFAULT_BLOCKSIZE DEFAULT_ITERATIONS).

(** The set-up returns only when the key, the encryptor and the
    decryptor are values and [hexstr] has returned on the key. *)
Lemma set_up_returns (enc : encryptor) (dec : decryptor) :
  prepared = inr (enc, dec) ->
  exists secret s,
    key = inr (Some secret)
    /\ hexstr (Some secret) = inr s
    /\ get_encryptor secret DEFAULT_IV = inr (Some enc)
    /\ get_decryptor secret DEFAULT_IV = inr (Some dec).
Proof.
  unfold set_up. cbv zeta. unfold logged_hex.
  destruct key as [e|secret]; [discriminate|].
  destruct (hexstr secret) as [e|s] eqn:Hs; [discriminate|].
  destruct secret as [secret|]; cbn [not_none]; [|discriminate].
  destruct (get_encryptor secret DEFAULT_IV) as [e|[enc0|]] eqn:Henc;
    try discriminate.
  destruct (get_decryptor secret DEFAULT_IV) as [e|[dec0|]] eqn:Hdec;
    try discriminate.
  intros [= <- <-]. exists secret, s. repeat split; assumption || reflexivity.
Qed.

Lemma set_up_of_values (secret : bytes) (enc : encryptor) (dec : decryptor)
    (s : String.string) :
  key = inr (Some secret) ->
  hexstr (Some secret) = inr s ->
  get_encryptor secret DEFAULT_IV = inr (Some enc) ->
  get_decryptor secret DEFAULT_IV = inr (Some dec) ->
  prepared = inr (enc, dec).
Proof.
  intros Hkey Hs Henc Hdec. unfold set_up. cbv zeta. unfold logged_hex.
  rewrite Hkey, Hs. cbn [not_none]. rewrite Henc. cbn [not_none].
  rewrite Hdec. reflexivity.
Qed.

(** X8.  For any backend and any [hexstr], with at least one encrypt
    and one decrypt call: if [do_test_backend] passes, then [get_key],
    [get_encryptor] and [get_decryptor] have returned values that are
    not [None], the first [encrypt] of the message a value [c] and the
    first [decrypt] of [c] the message itself.  When no call raises or
    returns [None], that first round trip alone decides: the test
    passes if the first [decrypt] gives the message back and fails
    with [AssertionError] if not, whatever the two counts, as the
    outputs of the later calls are asserted not to be [None] but never
    compared. *)
Theorem X8_test_is_first_round_trip (message : bytes) :
  (forall encrypt_count decrypt_count,
      test message (S encrypt_count) (S decrypt_count) = inr tt ->
      exists secret enc dec c enc' dec',
        key = inr (Some secret)
        /\ get_encryptor secret DEFAULT_IV = inr (Some enc)
        /\ get_decryptor secret DEFAULT_IV = inr (Some dec)
        /\ encrypt enc message = (inr (Some c), enc')
        /\ decrypt dec c = (inr (Some message), dec'))
  /\ (returns_value hexstr ->
      exists secret enc dec c back enc' dec',
        key = inr (Some secret)
        /\ get_encryptor secret DEFAULT_IV = inr (Some enc)
        /\ get_decryptor secret DEFAULT_IV = inr (Some dec)
        /\ encrypt enc message = (inr (Some c), enc')
        /\ decrypt dec c = (inr (Some back), dec')
        /\ forall encrypt_count decrypt_count,
             test message (S encrypt_count) (S decrypt_count)
             = if bytes_eqb back message then inr tt
               else inl (Failed AssertionError)).
Proof.
  split.
  - intros ec dc H. unfold do_test_backend in H.
    destruct prepared as [f|[enc dec]] eqn:Hset; [discriminate|].
    destruct (set_up_returns enc dec Hset) as (secret & s & Hkey & _ & Henc & Hdec).
    destruct (encrypt_loop (seq 0 (S ec)) enc message []) as [f|encrypted] eqn:Hloop;
      [discriminate|].
    destruct (encrypt_loop_first message ec enc encrypted Hloop)
      as (c & enc' & Hc & ->).
    destruct (mustequ [c]); [discriminate|].
    destruct (decrypt_loop hexstr (seq 0 (S dc)) dec [c] []) as [f|decrypted] eqn:Hback;
      [discriminate|].
    destruct (decrypt_loop_first dc dec [c] decrypted Hback)
      as (e0 & others & v & dec' & [= <- <-] & Hv & ->).
    destruct (mustequ [v]); [discriminate|].
    rewrite mustequ_pair in H.
    destruct (bytes_eqb v message) eqn:E; [|discriminate].
    apply bytes_eqb_eq in E. subst v.
    exists secret, enc, dec, c, enc', dec'. repeat split; assumption.
  - intros (Hkeys & Hencs & Hdecs & Hencrypt & Hdecrypt & Hhex).
    destruct (Hkeys Fixture.password DEFAULT_SALT DEFAULT_BLOCKSIZE DEFAULT_ITERATIONS)
      as (secret & Hkey).
    destruct (Hencs secret DEFAULT_IV) as (enc & Henc).
    destruct (Hdecs secret DEFAULT_IV) as (dec & Hdec).
    destruct (Hencrypt enc message) as (c & Hc).
    destruct (encrypt enc message) as [r enc'] eqn:Hcall. cbn [fst] in Hc. subst r.
    destruct (Hdecrypt dec c) as (back & Hb).
    destruct (decrypt dec c) as [r dec'] eqn:Hcall'. cbn [fst] in Hb. subst r.
    destruct (Hhex (Some secret)) as (s & Hs).
    exists secret, enc, dec, c, back, enc', dec'.
    repeat (split; [assumption || reflexivity|]).
    intros ec dc. unfold do_test_backend.
    rewrite (set_up_of_values secret enc dec s Hkey Hs Henc Hdec).
    cbn [seq encrypt_loop]. rewrite Hcall. cbn [not_none Nat.eqb app].
    rewrite (encrypt_loop_later message ec 1 enc' [c] Hencrypt) by lia.
    rewrite mustequ_at_most_one by (cbn [List.length]; lia).
    cbn [seq decrypt_loop]. rewrite Hcall'. unfold logged_hex.
    destruct (Hhex (Some back)) as (s' & Hs'). rewrite Hs'.
    cbn [not_none Nat.eqb app].
    rewrite (decrypt_loop_later dc 1 dec' c [] [back] Hdecrypt Hhex) by lia.
    rewrite mustequ_at_most_one by (cbn [List.length]; lia).
    apply mustequ_pair.
Qed.

(** X9.  For any backend, any [hexstr] and any message.  With no
    encrypt call and at least one decrypt call [do_test_backend] never
    passes, and once the set-up has returned it raises [IndexError], as
    it indexes the empty list of outputs before it calls [decrypt].
    With no decrypt call, it passes as soon as the set-up returns and
    every [encrypt] returns a value, whatever [decrypt] would do, and
    only then: if it passes, the set-up has returned and the first
    [encrypt], if there is one, has returned a value; if the first
    [encrypt] returns [None], it fails with [AssertionError]. *)
Theorem X9_test_without_calls (message : bytes) (encrypt_count decrypt_count : nat) :
  test message 0 (S decrypt_count) <> inr tt
  /\ (forall enc dec, prepared = inr (enc, dec) ->
        test message 0 (S decrypt_count) = inl (Failed IndexError))
  /\ (forall enc dec, prepared = inr (enc, dec) ->
        (forall e m, exists c, fst (encrypt e m) = inr (Some c)) ->
        test message encrypt_count 0 = inr tt)
  /\ (test message encrypt_count 0 = inr tt ->
        exists enc dec,
          prepared = inr (enc, dec)
          /\ (encrypt_count <> 0%nat ->
              exists c, fst (encrypt enc message) = inr (Some c)))
  /\ (forall enc dec, prepared = inr (enc, dec) ->
        fst (encrypt enc message) = inr None ->
        test message (S encrypt_count) 0 = inl (Failed AssertionError)).
Proof.
  split; [|split; [|split; [|split]]].
  - unfold do_test_backend. destruct prepared as [f|[enc dec]]; [discriminate|].
    cbn [seq encrypt_loop mustequ decrypt_loop]. discriminate.
  - intros enc dec Hset. unfold do_test_backend. rewrite Hset. reflexivity.
  - intros enc dec Hset Hval. unfold do_test_backend. rewrite Hset.
    destruct (encrypt_loop_all message encrypt_count enc Hval) as (l & Hl).
    rewrite Hl.
    rewrite (mustequ_at_most_one l (encrypt_loop_length message _ enc l Hl)).
    reflexivity.
  - intros H. unfold do_test_backend in H.
    destruct prepared as [f|[enc dec]]; [discriminate|].
    exists enc, dec. split; [reflexivity|]. intros Hcount.
    destruct encrypt_count as [|n]; [congruence|].
    destruct (encrypt_loop (seq 0 (S n)) enc message []) as [f|l] eqn:Hl;
      [discriminate|].
    destruct (encrypt_loop_first message n enc l Hl) as (c & enc' & Hc & _).
    exists c. now rewrite Hc.
  - intros enc dec Hset Hnone. unfold do_test_backend. rewrite Hset.
    cbn [seq encrypt_loop]. destruct (encrypt enc message) as [r enc'].
    cbn [fst] in Hnone. subst r. reflexivity.
Qed.

End AnyBackend.

(** * Properties of [vfb_util] *)

Module StrFacts.

Import Ascii PyStr.

Lemma str_eqb_eq (a b : str) : str_eqb a b = true <-> a = b.
Proof.
  revert b. induction a as [|x a IH]; intros [|y b]; cbn [str_eqb];
    try (split; [discriminate | congruence]).
  - split; trivial.
  - rewrite andb_true_iff, IH, Ascii.eqb_eq. split.
    + intros [-> ->]. reflexivity.
    + intros [= -> ->]. now split.
Qed.

Lemma str_eqb_refl (a : str) : str_eqb a a = true.
Proof. now apply str_eqb_eq. Qed.

Lemma partition_absent (sep : ascii) (s : str) :
  ~ In sep s -> partition sep s = (s, None).
Proof.
  induction s as [|c s IH]; intros Hs; cbn [partition]; trivial.
  destruct (Ascii.eqb_spec c sep) as [->|Hne].
  - exfalso. apply Hs. now left.
  - rewrite IH; trivial. intros Hin. apply Hs. now right.
Qed.

Lemma partition_first (sep : ascii) (a b : str) :
  ~ In sep a -> partition sep (a ++ sep :: b) = (a, Some b).
Proof.
  induction a as [|c a IH]; intros Ha; cbn [app partition].
  - now rewrite Ascii.eqb_refl.
  - destruct (Ascii.eqb_spec c sep) as [->|Hne].
    + exfalso. apply Ha. now left.
    + rewrite IH; trivial. intros Hin. apply Ha. now right.
Qed.

Lemma replace_absent (old new : ascii) (s : str) :
  ~ In old s -> replace old new s = s.
Proof.
  induction s as [|c s IH]; intros Hs; cbn [replace map]; trivial.
  destruct (Ascii.eqb_spec c old) as [->|Hne].
  - exfalso. apply Hs. now left.
  - f_equal. apply IH. intros Hin. apply Hs. now right.
Qed.

Lemma replace_app (old new : ascii) (a b : str) :
  replace old new (a ++ b) = replace old new a ++ replace old new b.
Proof. apply map_app. Qed.

Lemma replace_removes (old new : ascii) (s : str) :
  old <> new -> ~ In old (replace old new s).
Proof.
  intros Hne. induction s as [|c s IH]; cbn [replace map]; [tauto|].
  intros [Heq|Hin]; [|now apply IH].
  destruct (Ascii.eqb_spec c old); congruence.
Qed.

Lemma read_digits_chars (s : str) (acc : Z) (count : nat) (after : bool)
    (r : Z * nat) :
  read_digits acc count after s = Some r ->
  forallb literal_char s = true.
Proof.
  revert acc count after. induction s as [|c s IH]; intros acc count after; trivial.
  cbn [read_digits forallb]. unfold literal_char at 1.
  destruct (digit_value c) as [d|].
  - intros H. rewrite (IH _ _ _ H). now rewrite !orb_true_r.
  - destruct (Ascii.eqb c "_"); cbn [andb]; [|discriminate].
    destruct after; [|discriminate]. intros H. rewrite (IH _ _ _ H).
    now rewrite !orb_true_r.
Qed.

Lemma lstrip_space_chars (s : str) :
  forallb literal_char (lstrip_space s) = true -> forallb literal_char s = true.
Proof.
  induction s as [|c s IH]; trivial. cbn [lstrip_space].
  destruct (is_space c) eqn:E; [|trivial].
  intros H. cbn [forallb]. rewrite (IH H). unfold literal_char. now rewrite E.
Qed.

Lemma forallb_rev {A : Type} (f : A -> bool) (l : list A) :
  forallb f (rev l) = forallb f l.
Proof.
  induction l as [|x l IH]; trivial.
  cbn [rev forallb]. rewrite forallb_app, IH. cbn [forallb].
  rewrite andb_true_r. apply andb_comm.
Qed.

(** [int] accepts only strings made of spaces, signs, digits and
    underscores. *)
Lemma int_chars (limit : nat) (s : str) (v : Z) :
  int limit s = inr v -> forallb literal_char s = true.
Proof.
  unfold int, strip_space. intros H.
  apply lstrip_space_chars. rewrite <- forallb_rev.
  apply lstrip_space_chars. rewrite <- forallb_rev.
  destruct (rev (lstrip_space (rev (lstrip_space s)))) as [|c t] eqn:Et.
  { discriminate. }
  assert (Hbody : forall sign body,
            match read_digits 0 0 false body with
            | Some (v0, count) =>
                if over_limit limit count then inl ValueError else inr (sign * v0)
            | None => inl ValueError
            end = inr v -> forallb literal_char body = true).
  { intros sign body Hb. destruct (read_digits 0 0 false body) as [[v0 n]|] eqn:Er;
      [|discriminate]. eapply read_digits_chars; eassumption. }
  cbn [forallb]. unfold literal_char at 1.
  destruct (Ascii.eqb c "-") eqn:Em.
  { rewrite (Hbody _ _ H). now rewrite !orb_true_r. }
  destruct (Ascii.eqb c "+") eqn:Ep.
  { rewrite (Hbody _ _ H). now rewrite !orb_true_r. }
  pose proof (Hbody _ _ H) as Hall. cbn [forallb] in Hall.
  unfold literal_char at 1 in Hall. now rewrite Em, Ep in Hall.
Qed.

Lemma int_rejects (limit : nat) (s : str) (c : ascii) :
  literal_char c = false -> In c s -> int limit s = inl ValueError.
Proof.
  intros Hc Hin. destruct (int limit s) as [e|v] eqn:E.
  - unfold int in E.
    destruct (match strip_space s with
              | [] => (1, strip_space s)
              | c0 :: rest =>
                  if Ascii.eqb c0 "-" then (-1, rest)
                  else if Ascii.eqb c0 "+" then (1, rest) else (1, strip_space s)
              end) as [sign body].
    destruct (read_digits 0 0 false body) as [[v0 n]|]; [|congruence].
    destruct (over_limit limit n); congruence.
  - pose proof (int_chars limit s v E) as Hall.
    rewrite forallb_forall in Hall. rewrite (Hall c Hin) in Hc. discriminate.
Qed.

Lemma int_nonempty (limit : nat) (v : Z) : int limit [] <> inr v.
Proof. discriminate. Qed.

Lemma upper_literal_char (c : ascii) : literal_char c = true -> upper_char c = c.
Proof.
  unfold literal_char, upper_char, is_space, digit_value.
  destruct (N.leb 97 (ord c) && N.leb (ord c) 122) eqn:E; trivial.
  apply andb_true_iff in E. destruct E as [Hlo Hhi].
  apply N.leb_le in Hlo, Hhi.
  assert (Hnot : forall d, c = d -> (ord d < 97)%N -> False) by (intros d -> ?; lia).
  intros H.
  apply orb_true_iff in H. destruct H as [H|Hdigit].
  - apply orb_true_iff in H. destruct H as [H|Hunder].
    + apply orb_true_iff in H. destruct H as [H|Hplus].
      * apply orb_true_iff in H. destruct H as [Hspace|Hminus].
        -- apply orb_true_iff in Hspace. destruct Hspace as [H|H].
           ++ apply andb_true_iff in H. destruct H as [_ H]. apply N.leb_le in H. lia.
           ++ apply N.eqb_eq in H. lia.
        -- apply Ascii.eqb_eq in Hminus. exfalso. apply (Hnot _ Hminus). now vm_compute.
      * apply Ascii.eqb_eq in Hplus. exfalso. apply (Hnot _ Hplus). now vm_compute.
    + apply Ascii.eqb_eq in Hunder. exfalso. apply (Hnot _ Hunder). now vm_compute.
  - destruct (N.leb 48 (ord c) && N.leb (ord c) 57) eqn:Ed; [|discriminate].
    apply andb_true_iff in Ed. destruct Ed as [_ Hd]. apply N.leb_le in Hd. lia.
Qed.

End StrFacts.

Module ResolutionFacts.

Import Ascii String PyStr StrFacts VfbUtil.

Local Open Scope list_scope.

(** A key of the table is never a string with property [P], when no
    key has it. *)
Lemma no_alias (P : str -> bool) (u : str) :
  forallb (fun kv => negb (P (fst kv))) RESOLUTION_ALIASES = true ->
  P u = true ->
  dict_get RESOLUTION_ALIASES u = None.
Proof.
  intros Hkeys Hu. induction RESOLUTION_ALIASES as [|[k v] rest IH]; trivial.
  cbn [forallb fst] in Hkeys. apply andb_true_iff in Hkeys.
  destruct Hkeys as [Hk Hrest]. cbn [dict_get].
  destruct (str_eqb k u) eqn:E.
  - apply str_eqb_eq in E. subst k. rewrite Hu in Hk. discriminate.
  - now apply IH.
Qed.

Lemma upper_separator_upper (c : ascii) :
  is_separator c = true -> upper_separator (upper_char c) = true.
Proof.
  unfold is_separator. intros H. apply orb_true_iff in H.
  destruct H as [H|H]; apply Ascii.eqb_eq in H; subst c; reflexivity.
Qed.

Lemma separators_upper (s : str) :
  (separators s <= List.length (filter upper_separator (upper s)))%nat.
Proof.
  unfold separators, upper. induction s as [|c s IH]; cbn [filter map]; [lia|].
  destruct (is_separator c) eqn:E.
  - rewrite (upper_separator_upper c E). cbn [List.length]. lia.
  - destruct (upper_separator (upper_char c)); cbn [List.length]; lia.
Qed.

Lemma literal_not_separator (c : ascii) :
  literal_char c = true -> is_separator c = false.
Proof.
  unfold is_separator. intros H.
  destruct (Ascii.eqb_spec c "x") as [->|_]; [discriminate H|].
  destruct (Ascii.eqb_spec c ",") as [->|_]; [discriminate H|]. reflexivity.
Qed.

Lemma literal_no (s : str) (c : ascii) :
  forallb literal_char s = true -> literal_char c = false -> ~ In c s.
Proof.
  intros Hall Hc Hin. rewrite forallb_forall in Hall.
  rewrite (Hall c Hin) in Hc. discriminate.
Qed.

Lemma upper_literal (s : str) : forallb literal_char s = true -> upper s = s.
Proof.
  induction s as [|c s IH]; trivial. cbn [forallb upper map].
  intros H. apply andb_true_iff in H. destruct H as [Hc Hs].
  rewrite (upper_literal_char c Hc). f_equal. now apply IH.
Qed.

Section ParseResolution.

Variable max_str_digits : nat.

Local Abbreviation int := (PyStr.int max_str_digits).
Local Abbreviation parse := (parse_resolution max_str_digits).

Lemma int_error (s : str) (e : exn) : int s = inl e -> e = ValueError.
Proof.
  unfold PyStr.int.
  destruct (match strip_space s with
            | [] => (1, strip_space s)
            | c0 :: rest =>
                if Ascii.eqb c0 "-" then (-1, rest)
                else if Ascii.eqb c0 "+" then (1, rest) else (1, strip_space s)
            end) as [sign body].
  destruct (read_digits 0 0 false body) as [[v0 n]|]; [|congruence].
  destruct (over_limit max_str_digits n); congruence.
Qed.

(** A literal on each side of one separator is not a key of the
    table, in any case of letters. *)
Lemma two_literals_no_alias (a b : str) (c : ascii) (w h : Z) :
  int a = inr w -> is_separator c = true ->
  dict_get RESOLUTION_ALIASES (upper (a ++ c :: b)) = None.
Proof.
  intros Ha Hc.
  apply (no_alias (fun u => match u with
                            | x :: _ => literal_char x
                            | [] => false
                            end && existsb upper_separator u)); [reflexivity|].
  pose proof (int_chars _ _ _ Ha) as Hall.
  destruct a as [|x a]; [discriminate Ha|].
  cbn [forallb] in Hall. apply andb_true_iff in Hall. destruct Hall as [Hx _].
  cbn [app upper map]. rewrite (upper_literal_char x Hx), Hx. cbn [andb existsb].
  apply orb_true_iff. right. apply existsb_exists. exists (upper_char c).
  split; [|now apply upper_separator_upper].
  unfold upper. rewrite map_app. apply in_or_app. right. now left.
Qed.

Lemma parts_of (a b : str) (c : ascii) (w h : Z) :
  int a = inr w -> int b = inr h -> is_separator c = true ->
  split1 "x" (replace "," "x" (a ++ c :: b)) = [a; b].
Proof.
  intros Ha Hb Hc.
  pose proof (int_chars _ _ _ Ha) as Hla. pose proof (int_chars _ _ _ Hb) as Hlb.
  rewrite replace_app. cbn [replace map].
  fold (replace "," "x" b). fold (replace "," "x" a).
  rewrite !replace_absent by (apply literal_no; trivial).
  assert (Hx : (if Ascii.eqb c "," then "x"%char else c) = "x"%char).
  { unfold is_separator in Hc. apply orb_true_iff in Hc.
    destruct Hc as [H|H]; apply Ascii.eqb_eq in H; subst c; reflexivity. }
  rewrite Hx. unfold split1.
  rewrite partition_first by (apply literal_no; trivial). reflexivity.
Qed.

(** X10.  Two integer literals (as [int] accepts them: surrounding
    spaces, a sign, underscores between digits) written with an [x] or
    with a comma between them are the resolution of these two
    integers; the two separators are equivalent, and no sign or size
    is refused. *)
Theorem X10_resolution_of_two_literals (a b : str) (w h : Z) :
  int a = inr w ->
  int b = inr h ->
  parse (a ++ lit "x" ++ b) = inr (w, h)
  /\ parse (a ++ lit "," ++ b) = inr (w, h).
Proof.
  intros Ha Hb. unfold parse_resolution.
  split; cbn [lit list_ascii_of_string app];
    rewrite (two_literals_no_alias a b _ w h Ha) by reflexivity;
    rewrite (parts_of a b _ w h Ha Hb) by reflexivity;
    cbn [ints]; now rewrite Ha, Hb.
Qed.

Lemma separators_none (s : str) :
  separators s = 0%nat -> ~ In "x"%char s /\ ~ In ","%char s.
Proof.
  unfold separators. intros H. apply length_zero_iff_nil in H.
  assert (Hno : forall c, is_separator c = true -> ~ In c s).
  { intros c Hc Hin.
    assert (Hf : In c (filter is_separator s)) by (apply filter_In; now split).
    rewrite H in Hf. contradiction. }
  split; apply Hno; reflexivity.
Qed.

Lemma partition_count (sep : ascii) (s p : str) (o : option str) :
  partition sep s = (p, o) ->
  count_occ ascii_dec s sep
  = match o with
    | None => 0%nat
    | Some q => S (count_occ ascii_dec q sep)
    end.
Proof.
  revert p o. induction s as [|c s IH]; intros p o; cbn [partition].
  - intros [= <- <-]. reflexivity.
  - destruct (Ascii.eqb_spec c sep) as [->|Hne].
    + intros [= <- <-]. now rewrite count_occ_cons_eq.
    + destruct (partition sep s) as [a b]. intros [= <- <-].
      rewrite count_occ_cons_neq by assumption. now apply (IH a).
Qed.

Lemma replace_count (s : str) :
  count_occ ascii_dec (replace "," "x" s) "x"%char = separators s.
Proof.
  unfold separators, replace, is_separator.
  induction s as [|c s IH]; trivial. cbn [map filter].
  destruct (Ascii.eqb_spec c ",") as [->|Hcomma].
  - cbn [orb Ascii.eqb]. rewrite count_occ_cons_eq by reflexivity.
    cbn [List.length]. now rewrite IH.
  - rewrite orb_false_r. destruct (Ascii.eqb_spec c "x") as [->|Hx].
    + rewrite count_occ_cons_eq by reflexivity. cbn [List.length]. now rewrite IH.
    + rewrite count_occ_cons_neq by assumption. exact IH.
Qed.

(** X11.  An ASCII string without [x] and without comma is never
    parsed into a resolution: unless it is a name of the table,
    [parse_resolution] raises, [AssertionError] when the string is one
    integer, and [ValueError] when it is not an integer. *)
Theorem X11_resolution_needs_separator (s : str) :
  is_ascii s = true ->
  separators s = 0%nat ->
  (forall r, parse s = inr r -> dict_get RESOLUTION_ALIASES (upper s) = Some r)
  /\ (forall v, int s = inr v -> parse s = inl AssertionError)
  /\ (dict_get RESOLUTION_ALIASES (upper s) = None ->
      (forall v, int s <> inr v) -> parse s = inl ValueError).
Proof.
  intros _ Hsep. destruct (separators_none s Hsep) as [Hx Hcomma].
  assert (Hparts : split1 "x" (replace "," "x" s) = [s]).
  { rewrite replace_absent by assumption. unfold split1.
    now rewrite partition_absent. }
  unfold parse_resolution. rewrite Hparts. cbn [ints].
  split; [|split].
  - intros r. destruct (dict_get RESOLUTION_ALIASES (upper s)) as [v|].
    + congruence.
    + destruct (int s); discriminate.
  - intros v Hv. pose proof (int_chars _ _ _ Hv) as Hall.
    rewrite (no_alias (forallb literal_char) (upper s)); [now rewrite Hv|reflexivity|].
    now rewrite (upper_literal s Hall).
  - intros -> Hnot. destruct (int s) as [e|v] eqn:E.
    + now rewrite (int_error s e E).
    + now destruct (Hnot v).
Qed.

(** X12.  A string that holds two or more separators ([x] or comma) is
    never a resolution: [parse_resolution] raises [ValueError], as only
    the first separator splits and [int] is given the rest. *)
Theorem X12_second_separator_rejected (s : str) :
  (2 <= separators s)%nat ->
  parse s = inl ValueError.
Proof.
  intros Hsep. unfold parse_resolution.
  rewrite (no_alias (fun u => Nat.leb 2 (List.length (filter upper_separator u)))
             (upper s)); [|reflexivity|].
  2:{ apply Nat.leb_le. pose proof (separators_upper s). lia. }
  unfold split1.
  destruct (partition "x" (replace "," "x" s)) as [p o] eqn:Ep.
  pose proof (partition_count _ _ _ _ Ep) as Hcount.
  rewrite replace_count in Hcount.
  destruct o as [q|]; [|lia].
  assert (Hq : In "x"%char q).
  { apply (count_occ_In ascii_dec). lia. }
  cbn [ints]. destruct (int p) as [e|v] eqn:E.
  - now rewrite (int_error p e E).
  - now rewrite (int_rejects max_str_digits q "x" eq_refl Hq).
Qed.

End ParseResolution.

End ResolutionFacts.

Module PathFacts.

Import Ascii PyStr StrFacts PosixPath.

Lemma from_sep_shape (r : str) :
  from_sep r = [] \/ exists r', from_sep r = sep :: r'.
Proof.
  induction r as [|c r IH]; [now left|]. cbn [from_sep].
  destruct (Ascii.eqb_spec c sep) as [->|_]; [right; now exists r | exact IH].
Qed.

Lemma from_sep_length (r : str) : (length (from_sep r) <= length r)%nat.
Proof.
  induction r as [|c r IH]; cbn [from_sep length]; [lia|].
  destruct (Ascii.eqb c sep); cbn [length]; lia.
Qed.

Lemma from_sep_all (r : str) :
  all_sep (from_sep r) = true -> length (from_sep r) = length r -> all_sep r = true.
Proof.
  induction r as [|c r IH]; trivial. cbn [from_sep].
  destruct (Ascii.eqb_spec c sep) as [->|Hne]; trivial.
  intros _ Hlen. pose proof (from_sep_length r). cbn [length] in Hlen. lia.
Qed.

Lemma lstrip_length (c : ascii) (s : str) : (length (lstrip c s) <= length s)%nat.
Proof.
  induction s as [|x s IH]; cbn [lstrip length]; [lia|].
  destruct (Ascii.eqb x c); cbn [length]; lia.
Qed.

Lemma all_sep_rev (s : str) : all_sep (rev s) = all_sep s.
Proof. apply forallb_rev. Qed.

(** [dirname] shortens every path that is not made of separators only. *)
Lemma dirname_shorter (p : str) :
  all_sep p = false -> (length (dirname p) < length p)%nat.
Proof.
  intros Hp. unfold dirname, head.
  pose proof (from_sep_length (rev p)) as Hlen. rewrite length_rev in Hlen.
  destruct (rev (from_sep (rev p))) as [|c h] eqn:Eh.
  - destruct p; [discriminate Hp | cbn; lia].
  - rewrite <- Eh.
    destruct (all_sep (rev (from_sep (rev p)))) eqn:Eall.
    + rewrite length_rev.
      destruct (Nat.eq_dec (length (from_sep (rev p))) (length p)) as [Heq|Hne]; [|lia].
      rewrite all_sep_rev in Eall. rewrite <- (length_rev p) in Heq.
      pose proof (from_sep_all (rev p) Eall Heq) as Hall.
      rewrite all_sep_rev in Hall. congruence.
    + unfold rstrip. rewrite length_rev, rev_involutive.
      destruct (from_sep_shape (rev p)) as [Hnil|[r' Hr]].
      * rewrite Hnil in Eh. discriminate.
      * rewrite Hr. cbn [lstrip]. unfold sep at 1. rewrite Ascii.eqb_refl.
        pose proof (lstrip_length sep r'). rewrite Hr in Hlen. cbn [length] in Hlen.
        fold sep. lia.
Qed.

Lemma parent_chain_snoc (l : list str) (d : str) :
  parent_chain l ->
  match l with
  | [] => True
  | _ :: _ => last l [] = dirname d
  end ->
  parent_chain (l ++ [d]).
Proof.
  induction l as [|a l IH]; [trivial|].
  destruct l as [|b l].
  - cbn. intros _ ->. now split.
  - intros [Hab Hrest] Hlast. cbn [app parent_chain]. split; [exact Hab|].
    apply IH; trivial.
Qed.

End PathFacts.

Module DeviceConfigFacts.

Import Ascii String PyStr StrFacts PosixPath PathFacts VfbUtil.

Local Open Scope list_scope.

Section Scan.

Variable exists_ : str -> bool.

Local Abbreviation scan := (scan_dirs exists_).

Lemma scan_result (fuel : nat) (d : str) (dirs : list str) (t : list call)
    (res : list str) (t' : list call) :
  scan fuel d dirs t = Some (res, t') ->
  exists new logs,
    res = new ++ dirs
    /\ t' = t ++ logs
    /\ os_calls logs = []
    /\ Forall (missing exists_) new
    /\ parent_chain new
    /\ match new with
       | [] => d = [] \/ exists_ d = true
       | top :: _ =>
           last new [] = d /\ (dirname top = [] \/ exists_ (dirname top) = true)
       end.
Proof.
  revert d dirs t. induction fuel as [|fuel IH]; intros d dirs t; [discriminate|].
  cbn [scan_dirs]. destruct d as [|c d'].
  { intros [= <- <-]. exists [], []. rewrite app_nil_r.
    repeat split; trivial. now left. }
  destruct (exists_ (c :: d')) eqn:Eex.
  { intros [= <- <-]. exists [], []. rewrite app_nil_r.
    repeat split; trivial. now right. }
  intros Hscan. destruct (IH _ _ _ Hscan)
    as (new & logs & Hres & Ht & Hlogs & Hmissing & Hchain & Htop).
  exists (new ++ [c :: d']),
    (Log Debug (lit "create_device_configs: dir does not exist: %s") [AStr (c :: d')]
       :: logs).
  split; [now rewrite <- app_assoc|].
  split; [now rewrite Ht, <- app_assoc|].
  split; [exact Hlogs|].
  split.
  { apply Forall_app. split; trivial. constructor; [|constructor].
    split; [discriminate | exact Eex]. }
  split.
  { apply parent_chain_snoc; trivial. destruct new; [trivial | apply Htop]. }
  destruct new as [|top new]; cbn [app].
  - split; [reflexivity | exact Htop].
  - split; [|apply Htop]. change (top :: new ++ [c :: d']) with ((top :: new) ++ [c :: d']).
    apply last_last.
Qed.

Lemma scan_ends (fuel : nat) (d : str) (dirs : list str) (t : list call) :
  roots_exist exists_ ->
  (List.length d < fuel)%nat ->
  scan fuel d dirs t <> None.
Proof.
  intros Hroots. revert d dirs t.
  induction fuel as [|fuel IH]; intros d dirs t Hfuel; [lia|].
  cbn [scan_dirs]. destruct d as [|c d']; [discriminate|].
  destruct (exists_ (c :: d')) eqn:Eex; [discriminate|].
  apply IH.
  assert (Hnot : all_sep (c :: d') = false).
  { destruct (all_sep (c :: d')) eqn:E; trivial.
    rewrite (Hroots (c :: d')) in Eex; [discriminate | discriminate | exact E]. }
  pose proof (dirname_shorter _ Hnot). lia.
Qed.

(** X13.  When every path made of separators only exists, the loop of
    [create_xorg_device_configs] that looks for the directories to
    create ends, within as many turns as the path has characters.  The
    directories it lists do not exist, come parents first, each the
    [dirname] of the next, the last being the configuration directory
    itself, and above the first there is nothing to create; the loop
    makes no call but to the logger. *)
Theorem X13_directories_to_create (xorg_conf_dir : str) (t : list call) :
  roots_exist exists_ ->
  exists dirs logs,
    scan (S (List.length xorg_conf_dir)) xorg_conf_dir [] t = Some (dirs, t ++ logs)
    /\ os_calls logs = []
    /\ Forall (missing exists_) dirs
    /\ parent_chain dirs
    /\ match dirs with
       | [] => xorg_conf_dir = [] \/ exists_ xorg_conf_dir = true
       | top :: _ =>
           last dirs [] = xorg_conf_dir
           /\ (dirname top = [] \/ exists_ (dirname top) = true)
       end.
Proof.
  intros Hroots.
  destruct (scan (S (List.length xorg_conf_dir)) xorg_conf_dir [] t) as [[res t']|] eqn:E.
  - destruct (scan_result _ _ _ _ _ _ E)
      as (new & logs & Hres & Ht & Hlogs & Hmissing & Hchain & Htop).
    rewrite app_nil_r in Hres. subst res t'. exists new, logs. now repeat split.
  - exfalso. apply (scan_ends (S (List.length xorg_conf_dir)) xorg_conf_dir [] t Hroots);
      [lia | exact E].
Qed.

End Scan.

Section Create.

Variable max_str_digits : nat.
Variable exists_ : str -> bool.
Variable bytestostr : bytes -> str.
Variable strtobytes : str -> bytes.

Local Abbreviation create :=
  (create_xorg_device_configs max_str_digits exists_ bytestostr strtobytes).
Local Abbreviation save :=
  (save_input_conf max_str_digits bytestostr strtobytes).

Lemma format_02i_digit :
  format_02i max_str_digits 0 = inr (lit "00")
  /\ format_02i max_str_digits 1 = inr (lit "01").
Proof.
  unfold format_02i, to_str, over_limit.
  change (digit_count 0) with 1%nat. change (digit_count 1) with 1%nat.
  destruct max_str_digits as [|n]; split; reflexivity.
Qed.

Lemma os_calls_app (t1 t2 : list call) :
  os_calls (t1 ++ t2) = os_calls t1 ++ os_calls t2.
Proof. apply filter_app. Qed.

Lemma makedir_run (uid gid : Z) (d : str) (t : list call) :
  makedir uid gid d t
  = (inr tt, t ++ [Log Debug (lit "makedir(%s)") [AStr d]; Mkdir d; Lchown d uid gid]).
Proof.
  unfold makedir, debug, emit, os_bind. now rewrite <- !app_assoc.
Qed.

Lemma makedirs (uid gid : Z) (dirs : list str) (t : list call) :
  exists added,
    for_each dirs (makedir uid gid) t = (inr tt, t ++ added)
    /\ os_calls added = flat_map (dir_calls uid gid) dirs.
Proof.
  revert t. induction dirs as [|d dirs IH]; intros t.
  - exists []. now rewrite app_nil_r.
  - cbn [for_each]. unfold os_bind. rewrite makedir_run.
    destruct (IH (t ++ [Log Debug (lit "makedir(%s)") [AStr d]; Mkdir d;
                        Lchown d uid gid])) as (added & Hrun & Hcalls).
    rewrite Hrun.
    exists ([Log Debug (lit "makedir(%s)") [AStr d]; Mkdir d; Lchown d uid gid] ++ added).
    split.
    + now rewrite <- !app_assoc.
    + rewrite os_calls_app, Hcalls. reflexivity.
Qed.

Lemma saved (dir : str) (i : Z) (number dev_type : str) (uuid : bytes)
    (uid gid : Z) (t : list call) :
  format_02i max_str_digits i = inr number ->
  exists data,
    save dir i dev_type uuid uid gid t
    = (inr (PosixPath.join dir (number ++ lit "-" ++ dev_type ++ lit ".conf")),
       t ++ file_calls uid gid
              (PosixPath.join dir (number ++ lit "-" ++ dev_type ++ lit ".conf")) data).
Proof.
  intros Hnum. unfold save_input_conf, os_bind, os_lift, emit, os_ret.
  rewrite Hnum. eexists. unfold file_calls. rewrite <- !app_assoc. reflexivity.
Qed.

(** X14.  Without a device uuid [create_xorg_device_configs] touches
    nothing.  With one, on a file system whose root exists, it returns
    after these calls and no other: for each directory of a list, a
    [mkdir] immediately followed by the [lchown] to the given uid and
    gid; then the two files [00-pointer.conf] and [01-touchpad.conf] in
    the configuration directory, each opened, written once, given to
    the uid and gid and closed.  The list holds missing directories
    only, each the parent of the next, and it is complete: it ends
    with the configuration directory and starts below a directory that
    exists (or below the empty path), and it is empty only when the
    configuration directory exists (or is the empty path). *)
Theorem X14_device_configs_calls (xorg_conf_dir : str) (device_uuid : bytes)
    (uid gid : Z) (t : list call) :
  (forall fuel, exists added,
      create fuel xorg_conf_dir [] uid gid t = Some (inr tt, t ++ added)
      /\ os_calls added = [])
  /\ (roots_exist exists_ -> device_uuid <> [] ->
      exists dirs added data0 data1,
        create (S (List.length xorg_conf_dir)) xorg_conf_dir device_uuid uid gid t
        = Some (inr tt, t ++ added)
        /\ os_calls added
           = flat_map (dir_calls uid gid) dirs
             ++ file_calls uid gid
                  (PosixPath.join xorg_conf_dir (lit "00-pointer.conf")) data0
             ++ file_calls uid gid
                  (PosixPath.join xorg_conf_dir (lit "01-touchpad.conf")) data1
        /\ Forall (missing exists_) dirs
        /\ parent_chain dirs
        /\ match dirs with
           | [] => xorg_conf_dir = [] \/ exists_ xorg_conf_dir = true
           | top :: _ =>
               last dirs [] = xorg_conf_dir
               /\ (PosixPath.dirname top = [] \/ exists_ (PosixPath.dirname top) = true)
           end).
Proof.
  split.
  - intros fuel. eexists. unfold create_xorg_device_configs. split; reflexivity.
  - intros Hroots Huuid. unfold create_xorg_device_configs.
    destruct device_uuid as [|u0 uuid]; [congruence|].
    set (entry := Log Debug (lit "create_xorg_device_configs(%s, %s, %i, %i)")
                    [AStr xorg_conf_dir; ABytes (u0 :: uuid); AInt uid; AInt gid]).
    destruct (X13_directories_to_create exists_ xorg_conf_dir (t ++ [entry]) Hroots)
      as (dirs & logs & Hscan & Hlogs & Hmissing & Hchain & Htop).
    rewrite Hscan. unfold os_bind at 1.
    destruct (makedirs uid gid dirs ((t ++ [entry]) ++ logs))
      as (made & Hmade & Hmade_calls).
    rewrite Hmade. cbn [for_each]. unfold os_bind at 1 2.
    destruct format_02i_digit as [H0 H1].
    destruct (saved xorg_conf_dir 0 (lit "00") (lit "pointer") (u0 :: uuid) uid gid
                (((t ++ [entry]) ++ logs) ++ made) H0) as (data0 & Hsave0).
    rewrite Hsave0. unfold os_ret at 1. unfold os_bind at 1 2.
    destruct (saved xorg_conf_dir 1 (lit "01") (lit "touchpad") (u0 :: uuid) uid gid
                ((((t ++ [entry]) ++ logs) ++ made)
                   ++ file_calls uid gid
                        (PosixPath.join xorg_conf_dir
                           (lit "00" ++ lit "-" ++ lit "pointer" ++ lit ".conf")) data0)
                H1) as (data1 & Hsave1).
    rewrite Hsave1. unfold os_ret.
    exists dirs. eexists. exists data0, data1.
    split; [rewrite <- !app_assoc; reflexivity|].
    split.
    { rewrite !os_calls_app, Hlogs, Hmade_calls. reflexivity. }
    split; [exact Hmissing|]. split; [exact Hchain|]. exact Htop.
Qed.

End Create.

End DeviceConfigFacts.

Module CommandFacts.

Import Ascii String PyStr StrFacts VfbUtil.

Local Open Scope list_scope.

Lemma index_of_found (x : str) (l : list str) (n : nat) :
  index_of x l = Some n -> nth n l [] = x /\ (n < List.length l)%nat.
Proof.
  revert n. induction l as [|y l IH]; intros n; [discriminate|].
  cbn [index_of]. destruct (str_eqb y x) eqn:E.
  - intros [= <-]. apply str_eqb_eq in E. cbn. split; [exact E | lia].
  - destruct (index_of x l) as [m|]; [|discriminate].
    intros [= <-]. destruct (IH m eq_refl) as [Hn Hlen]. cbn. split; [exact Hn | lia].
Qed.

Lemma three_from (l : list str) (n : nat) :
  (S (S n) < List.length l)%nat ->
  l = firstn n l
        ++ nth n l [] :: nth (S n) l [] :: nth (S (S n)) l []
        :: skipn (S (S (S n))) l.
Proof.
  revert l. induction n as [|n IH]; intros l Hlen.
  - destruct l as [|a [|b [|c l]]]; cbn in Hlen; try lia. reflexivity.
  - destruct l as [|a l]; cbn in Hlen; [lia|].
    cbn [firstn app skipn]. change (nth (S n) (a :: l) []) with (nth n l []).
    change (nth (S (S n)) (a :: l) []) with (nth (S n) l []).
    change (nth (S (S (S n))) (a :: l) []) with (nth (S (S n)) l []).
    f_equal. apply IH. lia.
Qed.

Lemma set_third (l : list str) (n : nat) (v : str) :
  (S (S n) < List.length l)%nat ->
  set_item l (S (S n)) v
  = firstn n l ++ nth n l [] :: nth (S n) l [] :: v :: skipn (S (S (S n))) l.
Proof.
  revert l. induction n as [|n IH]; intros l Hlen.
  - destruct l as [|a [|b [|c l]]]; cbn in Hlen; try lia. reflexivity.
  - destruct l as [|a l]; cbn in Hlen; [lia|].
    cbn [firstn app skipn set_item]. change (nth (S n) (a :: l) []) with (nth n l []).
    change (nth (S (S n)) (a :: l) []) with (nth (S n) l []).
    f_equal. apply IH. lia.
Qed.

Section ScreenGeometry.

Variable max_str_digits : nat.

Local Abbreviation step := (screen_geometry max_str_digits).

(** X15.  The step of [start_Xvfb] that honours the initial geometry
    leaves the command alone when no geometry is given or the
    executable is not an [Xvfb].  Otherwise the new command holds
    [-screen 0 <geometry>] as three consecutive arguments, and differs
    from the old one in one of two ways only: the three arguments were
    appended at the end, or the argument that followed an existing
    [-screen 0] was replaced; the executable and every other argument
    stay. *)
Theorem X15_screen_geometry (vfb_geom : list Z) (pixel_depth : Z)
    (executable : str) (args : list str) (g : str) :
  step [] pixel_depth (executable :: args) = inr (executable :: args)
  /\ (endswith (lit "Xvfb") executable = false ->
      step vfb_geom pixel_depth (executable :: args) = inr (executable :: args))
  /\ (vfb_geom <> [] ->
      endswith (lit "Xvfb") executable = true ->
      geom_str max_str_digits vfb_geom pixel_depth = inr g ->
      exists pre post,
        step vfb_geom pixel_depth (executable :: args)
        = inr ((executable :: pre) ++ [lit "-screen"; lit "0"; g] ++ post)
        /\ ((post = [] /\ executable :: args = executable :: pre)
            \/ exists old,
                 executable :: args
                 = (executable :: pre) ++ [lit "-screen"; lit "0"; old] ++ post)).
Proof.
  split; [reflexivity|]. split.
  { intros Hexe. unfold screen_geometry. destruct vfb_geom; [reflexivity|].
    now rewrite Hexe. }
  intros Hgeom Hexe Hg. unfold screen_geometry.
  destruct vfb_geom as [|w rest]; [congruence|]. rewrite Hexe, Hg.
  set (cmd := executable :: args).
  assert (Happend : exists pre post,
            inr (cmd ++ [lit "-screen"; lit "0"; g])
            = @inr exn _ ((executable :: pre) ++ [lit "-screen"; lit "0"; g] ++ post)
            /\ ((post = [] /\ cmd = executable :: pre)
                \/ exists old,
                     cmd = (executable :: pre) ++ [lit "-screen"; lit "0"; old] ++ post)).
  { exists args, []. rewrite app_nil_r. split; [reflexivity|]. left. now split. }
  destruct (index_of (lit "0") cmd) as [[|before]|] eqn:Eidx; try exact Happend.
  destruct (str_eqb (nth before cmd []) (lit "-screen")
            && Nat.ltb (S (S before)) (List.length cmd)) eqn:Etest;
    [|exact Happend].
  apply andb_true_iff in Etest. destruct Etest as [Hscreen Hlen].
  apply str_eqb_eq in Hscreen. apply Nat.ltb_lt in Hlen.
  destruct (index_of_found _ _ _ Eidx) as [Hzero _].
  destruct before as [|before].
  { cbn in Hscreen. subst executable. discriminate Hexe. }
  rewrite (set_third cmd (S before) g Hlen).
  pose proof (three_from cmd (S before) Hlen) as Hcmd.
  rewrite Hscreen, Hzero in Hcmd |- *.
  unfold cmd at 1. cbn [firstn].
  exists (firstn before args), (skipn (S (S (S (S before)))) cmd).
  split; [reflexivity|]. right.
  exists (nth (S (S (S before))) cmd []).
  rewrite Hcmd at 1. unfold cmd at 1. cbn [firstn]. reflexivity.
Qed.

End ScreenGeometry.

End CommandFacts.

Module DisplayFacts.

Import Ascii String PyStr VfbUtil.

Local Open Scope list_scope.

Section Display.

Variable strtobytes : str -> bytes.
Variable process : Type.
Variable exception : Type.
Variable exception_str : exception -> str.
Variable pollwait : process -> Z -> option Z.
Variable wait_for_x_server : bytes -> Z -> option exception.

Local Abbreviation check := (check_xvfb_process process pollwait).
Local Abbreviation verify :=
  (verify_display_ready strtobytes process exception exception_str pollwait
     wait_for_x_server).
Local Abbreviation running := (still_running process pollwait).

Lemma check_default (xvfb : option process) (t : list call) :
  exists added,
    check xvfb (lit "Xvfb") 0 [] t = (inr (running xvfb), t ++ added)
    /\ os_calls added = []
    /\ errors added = if running xvfb then 0%nat else 5%nat.
Proof.
  unfold check_xvfb_process, still_running.
  destruct xvfb as [p|]; [|exists []; now rewrite app_nil_r].
  destruct (pollwait p 0); [|exists []; now rewrite app_nil_r].
  unfold os_bind, log_error, emit, os_ret. eexists.
  rewrite <- !app_assoc. split; [reflexivity|]. split; reflexivity.
Qed.

(** X16.  [verify_display_ready] answers [True] exactly when the X
    server answered within the timeout and, if the shadowing check is
    asked for, no process was given or the process has not ended when
    polled without waiting; it only logs.  With [log_errors] false it
    logs no error when the server does not answer, but the five error
    lines of [check_xvfb_process] are still logged when the process
    has ended. *)
Theorem X16_verify_display_ready (xvfb : option process) (display_name : str)
    (shadowing_check log_errors : bool) (timeout : Z) (t : list call) :
  let answered :=
    match wait_for_x_server (strtobytes display_name) timeout with
    | None => true
    | Some _ => false
    end in
  exists added,
    verify xvfb display_name shadowing_check log_errors timeout t
    = (inr (answered && (negb shadowing_check || running xvfb)), t ++ added)
    /\ os_calls added = []
    /\ errors added
       = if answered then
           if shadowing_check && negb (running xvfb)
           then (5 + if log_errors then 5 else 0)%nat
           else 0%nat
         else if log_errors then 2%nat else 0%nat.
Proof.
  intros answered. subst answered. unfold verify_display_ready.
  destruct (wait_for_x_server (strtobytes display_name) timeout) as [e|].
  - unfold os_bind, debug, log_error, emit, os_ret.
    destruct log_errors; eexists; rewrite <- ?app_assoc;
      (split; [reflexivity|]); split; reflexivity.
  - destruct shadowing_check; cbn [andb negb orb].
    + unfold os_bind at 1.
      destruct (check_default xvfb t) as (added & Hrun & Hos & Herr).
      rewrite Hrun. destruct (running xvfb); cbn [negb].
      * exists added. now repeat split.
      * unfold os_bind, debug, log_error, emit, os_ret.
        destruct log_errors; eexists; rewrite <- ?app_assoc;
          (split; [reflexivity|]);
          unfold os_calls, errors in *; rewrite !filter_app, ?length_app;
          rewrite ?Hos, ?Herr; split; reflexivity.
    + exists []. unfold os_bind, os_ret. now rewrite app_nil_r.
Qed.

End Display.

End DisplayFacts.

(** * The further properties at concrete inputs *)

Lemma X1_state_never_goes_back_witness :
  packet_parser
    (snd (refeed (feed Rfb.RFBAuth_values Rfb.RFBAuth_NONE Rfb.SetEncodings Rfb.RAW
                    Rfb.CLIENT_INIT Rfb.bytestostr)
            [Rfb.small_rectangle; Rfb.largest_rectangle; []]
            (Rfb.fresh SteadyStateUpdates)))
  = SteadyStateUpdates.
Proof.
  exact (proj2 (proj2 (X1_state_never_goes_back Rfb.RFBAuth_values Rfb.RFBAuth_NONE
                         Rfb.SetEncodings Rfb.RAW Rfb.CLIENT_INIT Rfb.bytestostr
                         [Rfb.small_rectangle; Rfb.largest_rectangle; []] []
                         (Rfb.fresh SteadyStateUpdates))) eq_refl).
Defined.

Lemma X3_count_within_buffer_witness :
  fst (feed Rfb.RFBAuth_values Rfb.RFBAuth_NONE Rfb.SetEncodings Rfb.RAW
         Rfb.CLIENT_INIT Rfb.bytestostr Rfb.small_rectangle
         (Rfb.fresh SteadyStateUpdates)) = inr (PyInt 32)
  /\ 32 <= len Rfb.small_rectangle.
Proof.
  assert (H : fst (feed Rfb.RFBAuth_values Rfb.RFBAuth_NONE Rfb.SetEncodings Rfb.RAW
                     Rfb.CLIENT_INIT Rfb.bytestostr Rfb.small_rectangle
                     (Rfb.fresh SteadyStateUpdates)) = inr (PyInt 32))
    by reflexivity.
  split; [exact H|].
  exact (proj1 (X3_count_within_buffer Rfb.RFBAuth_values Rfb.RFBAuth_NONE
                  Rfb.SetEncodings Rfb.RAW Rfb.CLIENT_INIT Rfb.bytestostr
                  Rfb.small_rectangle (Rfb.fresh SteadyStateUpdates) 32 H)).
Defined.

Lemma X4_set_encodings_reads_back_witness :
  exists message,
    send_set_encodings Rfb.SetEncodings Rfb.RAW (Rfb.fresh AwaitingClientInit)
    = (inr tt, mkSession AwaitingClientInit ([] ++ [message]) [] [])
    /\ len message = 8
    /\ unpack (network [cB; cB; cH; ci]) message = inr [Rfb.SetEncodings; 0; 1; Rfb.RAW].
Proof.
  apply (X4_set_encodings_reads_back Rfb.SetEncodings Rfb.RAW).
  - vm_compute. intuition discriminate.
  - vm_compute. intuition discriminate.
Defined.

Lemma X5_handshake_end_to_end_witness :
  fst (refeed (feed Rfb.RFBAuth_values Rfb.RFBAuth_NONE Rfb.SetEncodings Rfb.RAW
                 Rfb.CLIENT_INIT Rfb.bytestostr)
         [[x01; x01]; [x00; x00; x00; x00]; Rfb.client_init_message]
         (Rfb.fresh AwaitingSecurityHandshake))
  = [inr (PyInt 2); inr (PyInt 4); inr (PyInt 26)].
Proof.
  refine (proj1 (X5_handshake_end_to_end Rfb.RFBAuth_values Rfb.RFBAuth_NONE
                   Rfb.SetEncodings Rfb.RAW Rfb.CLIENT_INIT Rfb.bytestostr
                   _ _ _ x01 x01 [] Rfb.client_init_message
                   (Rfb.fresh AwaitingSecurityHandshake) eq_refl eq_refl eq_refl _ eq_refl)).
  - discriminate.
  - vm_compute. intuition discriminate.
  - vm_compute. intuition discriminate.
  - vm_compute. discriminate.
Defined.

Lemma X6_empty_buffer_witness :
  fst (feed Rfb.RFBAuth_values Rfb.RFBAuth_NONE Rfb.SetEncodings Rfb.RAW
         Rfb.CLIENT_INIT Rfb.bytestostr [] (Rfb.fresh AwaitingSecurityHandshake))
  = inl StructError
  /\ fst (feed Rfb.RFBAuth_values Rfb.RFBAuth_NONE Rfb.SetEncodings Rfb.RAW
            Rfb.CLIENT_INIT Rfb.bytestostr [] (Rfb.fresh AwaitingClientInit))
     = inr (PyInt 0).
Proof.
  split.
  - exact (proj1 (proj1 (X6_empty_buffer Rfb.RFBAuth_values Rfb.RFBAuth_NONE
                           Rfb.SetEncodings Rfb.RAW Rfb.CLIENT_INIT Rfb.bytestostr
                           (Rfb.fresh AwaitingSecurityHandshake)) eq_refl)).
  - refine (proj1 (proj2 (X6_empty_buffer Rfb.RFBAuth_values Rfb.RFBAuth_NONE
                            Rfb.SetEncodings Rfb.RAW Rfb.CLIENT_INIT Rfb.bytestostr
                            (Rfb.fresh AwaitingClientInit)) _ _)).
    + discriminate.
    + reflexivity.
Defined.

Lemma X7_zero_area_rectangle_witness :
  fst (Rfb.parse_rfb_packet (Rfb.empty_rectangle ++ [x2a]) (Rfb.fresh SteadyStateUpdates))
  = inr (PyInt 16)
  /\ fst (Rfb.parse_rfb_packet Rfb.empty_rectangle (Rfb.fresh SteadyStateUpdates))
     = inr (PyInt 0).
Proof.
  split.
  - refine (proj1 (X7_zero_area_rectangle Rfb.RAW (Rfb.empty_rectangle ++ [x2a])
                     (Rfb.fresh SteadyStateUpdates) _ eq_refl eq_refl eq_refl) _).
    + vm_compute. discriminate.
    + reflexivity.
  - refine (proj1 (proj2 (X7_zero_area_rectangle Rfb.RAW Rfb.empty_rectangle
                            (Rfb.fresh SteadyStateUpdates) _ eq_refl eq_refl eq_refl))
              eq_refl).
    vm_compute. discriminate.
Defined.

Lemma X8_test_is_first_round_trip_witness :
  (exists secret enc dec c enc' dec',
      @get_key _ _ _ plain_backend Fixture.password [x01] 32 1000 = inr (Some secret)
      /\ @get_encryptor _ _ _ plain_backend secret [x02] = inr (Some enc)
      /\ @get_decryptor _ _ _ plain_backend secret [x02] = inr (Some dec)
      /\ @encrypt _ _ _ plain_backend enc [x41; x42; x43] = (inr (Some c), enc')
      /\ @decrypt _ _ _ plain_backend dec c = (inr (Some [x41; x42; x43]), dec'))
  /\ @returns_value _ _ _ plain_backend no_hex
  /\ @do_test_backend _ _ _ plain_backend no_hex [x01] 1000 32 [x02]
       [x41; x42; x43] 20 20 = inr tt.
Proof.
  assert (Hval : @returns_value _ _ _ plain_backend no_hex).
  { repeat split; intros; eexists; reflexivity. }
  pose proof (@X8_test_is_first_round_trip _ _ _ plain_backend no_hex
                [x01] 1000 32 [x02] [x41; x42; x43]) as [Hpass Hverdict].
  split; [exact (Hpass 19%nat 19%nat eq_refl)|]. split; [exact Hval|].
  destruct (Hverdict Hval)
    as (secret & enc & dec & c & back & enc' & dec' & _ & _ & _ & Hc & Hback & Hall).
  injection Hc as <- _. injection Hback as <- _.
  exact (Hall 19%nat 19%nat).
Defined.

Lemma X9_test_without_calls_witness :
  @do_test_backend _ _ _ plain_backend no_hex [x01] 1000 32 [x02]
    [x41; x42; x43] 0 1 = inl (Failed IndexError)
  /\ @do_test_backend _ _ _ raising_decrypt_backend no_hex [x01] 1000 32 [x02]
       [x41; x42; x43] 20 0 = inr tt
  /\ @do_test_backend _ _ _ silent_decrypt_backend no_hex [x01] 1000 32 [x02]
       [x41; x42; x43] 20 0 = inr tt.
Proof.
  split; [|split].
  - exact (proj1 (proj2 (@X9_test_without_calls _ _ _ plain_backend no_hex
                           [x01] 1000 32 [x02] [x41; x42; x43] 0 0)) tt tt eq_refl).
  - refine (proj1 (proj2 (proj2 (@X9_test_without_calls _ _ _ raising_decrypt_backend
                                   no_hex [x01] 1000 32 [x02] [x41; x42; x43] 20 0)))
              tt tt eq_refl _).
    intros e m. exists m. reflexivity.
  - refine (proj1 (proj2 (proj2 (@X9_test_without_calls _ _ _ silent_decrypt_backend
                                   no_hex [x01] 1000 32 [x02] [x41; x42; x43] 20 0)))
              tt tt eq_refl _).
    intros e m. exists m. reflexivity.
Defined.

Module VfbInstances.

Import Ascii String PyStr VfbUtil.

Local Open Scope list_scope.

Lemma only_root_has_roots : roots_exist only_root.
Proof. intros [|c p] Hne Hall; [congruence | exact Hall]. Qed.

Lemma X10_resolution_of_two_literals_witness :
  parse_resolution 4300 (lit "1920x1080") = inr (1920, 1080)
  /\ parse_resolution 4300 (lit " -8_192 , +4096") = inr (-8192, 4096).
Proof.
  split.
  - exact (proj1 (ResolutionFacts.X10_resolution_of_two_literals 4300
                    (lit "1920") (lit "1080") 1920 1080 eq_refl eq_refl)).
  - exact (proj2 (ResolutionFacts.X10_resolution_of_two_literals 4300
                    (lit " -8_192 ") (lit " +4096") (-8192) 4096 eq_refl eq_refl)).
Defined.

Lemma X11_resolution_needs_separator_witness :
  parse_resolution 4300 (lit "1024") = inl AssertionError
  /\ parse_resolution 4300 (lit "1920X1080") = inl ValueError.
Proof.
  split.
  - exact (proj1 (proj2 (ResolutionFacts.X11_resolution_needs_separator 4300
                           (lit "1024") eq_refl eq_refl)) 1024 eq_refl).
  - refine (proj2 (proj2 (ResolutionFacts.X11_resolution_needs_separator 4300
                            (lit "1920X1080") eq_refl eq_refl)) eq_refl _).
    intros v. discriminate.
Defined.

Lemma X12_second_separator_rejected_witness :
  parse_resolution 4300 (lit "800x600x24") = inl ValueError.
Proof.
  apply ResolutionFacts.X12_second_separator_rejected. vm_compute. lia.
Defined.

Lemma X13_directories_to_create_witness :
  exists dirs logs,
    scan_dirs only_root 22 (lit "/run/user/xorg.conf.d") [] [] = Some (dirs, [] ++ logs)
    /\ os_calls logs = []
    /\ Forall (missing only_root) dirs
    /\ PosixPath.parent_chain dirs
    /\ match dirs with
       | [] => lit "/run/user/xorg.conf.d" = [] \/ only_root (lit "/run/user/xorg.conf.d") = true
       | top :: _ =>
           last dirs [] = lit "/run/user/xorg.conf.d"
           /\ (PosixPath.dirname top = [] \/ only_root (PosixPath.dirname top) = true)
       end.
Proof.
  exact (DeviceConfigFacts.X13_directories_to_create only_root
           (lit "/run/user/xorg.conf.d") [] only_root_has_roots).
Defined.

Lemma X14_device_configs_calls_witness :
  exists dirs added data0 data1,
    create_xorg_device_configs 4300 only_root (fun _ => lit "uuid") (fun _ => [x00])
      5 (lit "/etc") [x61] 0 0 [] = Some (inr tt, [] ++ added)
    /\ os_calls added
       = flat_map (dir_calls 0 0) dirs
         ++ file_calls 0 0 (PosixPath.join (lit "/etc") (lit "00-pointer.conf")) data0
         ++ file_calls 0 0 (PosixPath.join (lit "/etc") (lit "01-touchpad.conf")) data1
    /\ Forall (missing only_root) dirs
    /\ PosixPath.parent_chain dirs
    /\ match dirs with
       | [] => lit "/etc" = [] \/ only_root (lit "/etc") = true
       | top :: _ =>
           last dirs [] = lit "/etc"
           /\ (PosixPath.dirname top = [] \/ only_root (PosixPath.dirname top) = true)
       end.
Proof.
  refine (proj2 (DeviceConfigFacts.X14_device_configs_calls 4300 only_root
                   (fun _ => lit "uuid") (fun _ => [x00])
                   (lit "/etc") [x61] 0 0 []) only_root_has_roots _).
  discriminate.
Defined.

Lemma X15_screen_geometry_witness :
  exists pre post,
    screen_geometry 4300 [800; 600] 24
      [lit "/usr/bin/Xvfb"; lit "-nolisten"; lit "tcp"; lit "-screen"; lit "0";
       lit "8192x4096x24+32"; lit "-noreset"]
    = inr ((lit "/usr/bin/Xvfb" :: pre)
             ++ [lit "-screen"; lit "0"; lit "800x600x24"] ++ post)
    /\ ((post = []
         /\ [lit "/usr/bin/Xvfb"; lit "-nolisten"; lit "tcp"; lit "-screen"; lit "0";
             lit "8192x4096x24+32"; lit "-noreset"] = lit "/usr/bin/Xvfb" :: pre)
        \/ exists old,
             [lit "/usr/bin/Xvfb"; lit "-nolisten"; lit "tcp"; lit "-screen"; lit "0";
              lit "8192x4096x24+32"; lit "-noreset"]
             = (lit "/usr/bin/Xvfb" :: pre) ++ [lit "-screen"; lit "0"; old] ++ post).
Proof.
  refine (proj2 (proj2 (CommandFacts.X15_screen_geometry 4300 [800; 600] 24
                          (lit "/usr/bin/Xvfb")
                          [lit "-nolisten"; lit "tcp"; lit "-screen"; lit "0";
                           lit "8192x4096x24+32"; lit "-noreset"]
                          (lit "800x600x24"))) _ eq_refl eq_refl).
  discriminate.
Defined.

End VfbInstances.
